(** * sylin relay server: session registry, group membership, friend requests

    A shallow embedding of the socket.io event handlers of [src/server.js]
    (lines 46-53 and 73-312) and the properties of its in-memory stores.

    Conventions of the embedding.
    - A JS [Map] keyed by strings is a [gmap string _]; a JS array is a [list]
      ([push] appends at the end, [includes] is list membership, [find] and
      [findIndex] return the first match).
    - A field of an event payload that may be absent is an [option]; the
      payload itself is an object.  JS truthiness of a string is
      non-emptiness; an absent field is falsy.
    - The handshake token is a string (identities are opaque strings); the
      empty string is the falsy token that the guard [if (userId)] rejects.
    - [uuidv4()] and [new Date().toISOString()] are read from an environment
      record supplied with every event.
    - A handler returns the new store and the list of socket.io calls it made
      (emissions and room joins, in program order), or raises a JS error.
      [console.log] is not modelled. *)

From stdpp Require Import gmap strings list fin_maps relations.

Set Warnings "-clear-no-such-hyp".

Open Scope string_scope.
Open Scope list_scope.

(** ** JS truthiness *)

Definition truthy (s : string) : bool :=
  match s with
  | EmptyString => false
  | String _ _ => true
  end.

Definition truthy_opt (o : option string) : bool :=
  match o with
  | Some s => truthy s
  | None => false
  end.

(** The value of a string field that passed a guard [if (!field) return]. *)
Definition required (o : option string) : option string :=
  match o with
  | Some s => if truthy s then Some s else None
  | None => None
  end.

(** [arr.includes(x)] *)
Definition includes (x : string) (arr : list string) : bool :=
  bool_decide (x ∈ arr).

(** ** Data model (server.js, lines 46-53) *)

Definition SocketId := nat.

Inductive PresenceStatus := Online | Offline.

Inductive RequestStatus := Pending | Accepted | Rejected.

#[global] Instance PresenceStatus_eq_dec : EqDecision PresenceStatus.
Proof. solve_decision. Defined.

#[global] Instance RequestStatus_eq_dec : EqDecision RequestStatus.
Proof. solve_decision. Defined.

Record FriendRequest := {
  sender_id : string;
  receiver_id : string;
  status : RequestStatus
}.

(** The maps [users] and [anonymousConnections] of lines 47 and 49 are never
    read or written and are left out. *)
Record Store := {
  activeConnections : gmap string SocketId;      (* userId -> socket *)
  groupRooms : gmap string (list string);        (* groupId -> [userIds] *)
  userGroups : gmap string (list string);        (* userId -> [groupIds] *)
  userStatus : gmap string PresenceStatus;       (* userId -> status *)
  friendRequests : list FriendRequest
}.

Definition init : Store :=
  {| activeConnections := ∅; groupRooms := ∅; userGroups := ∅;
     userStatus := ∅; friendRequests := [] |}.

Definition set_activeConnections (m : gmap string SocketId) (st : Store) :=
  {| activeConnections := m; groupRooms := groupRooms st;
     userGroups := userGroups st; userStatus := userStatus st;
     friendRequests := friendRequests st |}.

Definition set_groupRooms (m : gmap string (list string)) (st : Store) :=
  {| activeConnections := activeConnections st; groupRooms := m;
     userGroups := userGroups st; userStatus := userStatus st;
     friendRequests := friendRequests st |}.

Definition set_userGroups (m : gmap string (list string)) (st : Store) :=
  {| activeConnections := activeConnections st; groupRooms := groupRooms st;
     userGroups := m; userStatus := userStatus st;
     friendRequests := friendRequests st |}.

Definition set_userStatus (m : gmap string PresenceStatus) (st : Store) :=
  {| activeConnections := activeConnections st; groupRooms := groupRooms st;
     userGroups := userGroups st; userStatus := m;
     friendRequests := friendRequests st |}.

Definition set_friendRequests (l : list FriendRequest) (st : Store) :=
  {| activeConnections := activeConnections st; groupRooms := groupRooms st;
     userGroups := userGroups st; userStatus := userStatus st;
     friendRequests := l |}.

(** Read operations of the spec, on the store. *)
Definition lookup_session (st : Store) (u : string) : option SocketId :=
  activeConnections st !! u.

Definition statusOf (st : Store) (u : string) : option PresenceStatus :=
  userStatus st !! u.

Definition membersOf (st : Store) (g : string) : list string :=
  default [] (groupRooms st !! g).

Definition groupsOf (st : Store) (u : string) : list string :=
  default [] (userGroups st !! u).

(** ** Connections, payloads and effects *)

(** One accepted transport connection: the closure of the callback of
    [io.on('connection')], its [socket] and its handshake token. *)
Record Conn := {
  socket : SocketId;
  token : string
}.

Record Env := {
  uuid : string;     (* the value uuidv4() returns during this event *)
  now : string       (* new Date().toISOString() *)
}.

Record CreateGroupData := {
  cg_name : option string;
  cg_members : option (list string)
}.

Record JoinRoomData := { jr_room_id : option string }.

Record GroupMessageData := {
  gm_group_id : option string;
  gm_content : option string;
  gm_type : option string;
  gm_fileUrl : option string
}.

Record MessageBody := {
  content : option string;
  fileUrl : option string
}.

Record SendMessageData := {
  contactId : option string;
  message : option MessageBody;
  is_anonymous : option bool
}.

Record FriendRequestData := {
  fr_receiver_id : option string;
  fr_timestamp : option string
}.

Record FriendResponseData := {
  rs_sender_id : option string;
  rs_accepted : option bool;
  rs_timestamp : option string
}.

Inductive Inbound :=
  | create_group (data : CreateGroupData)
  | join_room (data : JoinRoomData)
  | group_message (data : GroupMessageData)
  | send_message (data : SendMessageData)
  | friend_request (data : FriendRequestData)
  | friend_request_response (data : FriendResponseData)
  | disconnect.

(** The object passed to [emit]. *)
Inductive Payload :=
  | MemberStatus (userId : string) (st : PresenceStatus)
  | GroupCreated (group_id name : string)
  | GroupMessage (id group_id sender : string) (body : option string)
      (type : string) (file : option string) (timestamp : string)
  | DirectMessage (m : MessageBody)
  | FriendRequestFrom (sender : string) (timestamp : option string)
  | FriendRequestAck (receiver status : string) (timestamp : option string)
  | FriendResponseFrom (receiver : string) (accepted : option bool)
      (timestamp : option string)
  | FriendResponseNotFound (sender status : string) (timestamp : option string)
  | FriendResponseAck (sender : string) (accepted : option bool)
      (timestamp : option string).

Inductive Target :=
  | ToSocket (s : SocketId)                       (* s.emit(...) *)
  | ToRoomExcept (room : string) (s : SocketId)   (* s.to(room).emit(...) *)
  | ToRoom (room : string).                       (* io.to(room).emit(...) *)

Inductive Effect :=
  | Emit (to : Target) (event : string) (p : Payload)
  | Join (s : SocketId) (room : string).          (* s.join(room) *)

Inductive JsError := TypeError.

Inductive Outcome :=
  | Done (st : Store) (out : list Effect)
  | Raised (e : JsError).

(** ** The handlers *)

(** lines 66-70 *)
Definition verifyUser (tok : string) : string := tok.

Definition userId (c : Conn) : string := verifyUser (token c).

(** lines 90-97 and 302-309: one [member-status] per entry of the caller's
    group list. *)
Definition notify_groups (c : Conn) (s : PresenceStatus) (st : Store)
  : list Effect :=
  match userGroups st !! userId c with
  | Some gs =>
      map (λ groupId,
             Emit (ToRoomExcept groupId (socket c)) "member-status"
                  (MemberStatus (userId c) s)) gs
  | None => []
  end.

(** lines 73-103.  [verifyUser] cannot throw, so the [catch] branch is dead. *)
Definition connection (c : Conn) (st : Store) : Store * list Effect :=
  if truthy (userId c) then
    let st1 := set_activeConnections
                 (<[userId c := socket c]> (activeConnections st)) st in
    let st2 := set_userStatus (<[userId c := Online]> (userStatus st1)) st1 in
    (st2, notify_groups c Online st2)
  else (st, []).

(** lines 119-122 and 152-154: [if (!userGroups.has(userId)) userGroups.set(userId, [])] *)
Definition ensure_userGroups (u : string) (st : Store) : Store :=
  match userGroups st !! u with
  | Some _ => st
  | None => set_userGroups (<[u := []]> (userGroups st)) st
  end.

(** lines 106-134 *)
Definition on_create_group (c : Conn) (env : Env) (data : CreateGroupData)
    (st : Store) : Outcome :=
  match required (cg_name data) with
  | None => Done st []
  | Some name =>
      let groupId := uuid env in
      let st1 := set_groupRooms
                   (<[groupId := default [userId c] (cg_members data)]>
                      (groupRooms st)) st in
      let st2 := ensure_userGroups (userId c) st1 in
      let st3 := set_userGroups
                   (<[userId c := groupsOf st2 (userId c) ++ [groupId]]>
                      (userGroups st2)) st2 in
      Done st3 [Join (socket c) groupId;
                Emit (ToSocket (socket c)) "group_created"
                     (GroupCreated groupId name)]
  end.

(** lines 145-159, the branch taken when [room_id] is a registered group *)
Definition join_group (c : Conn) (room_id : string) (members : list string)
    (st : Store) : Store :=
  let st1 :=
    if includes (userId c) members then st
    else set_groupRooms
           (<[room_id := members ++ [userId c]]> (groupRooms st)) st in
  let st2 := ensure_userGroups (userId c) st1 in
  let userGroupsList := groupsOf st2 (userId c) in
  if includes room_id userGroupsList then st2
  else set_userGroups
         (<[userId c := userGroupsList ++ [room_id]]> (userGroups st2)) st2.

(** lines 137-160 *)
Definition on_join_room (c : Conn) (data : JoinRoomData) (st : Store)
  : Outcome :=
  match required (jr_room_id data) with
  | None => Done st []
  | Some room_id =>
      let st' :=
        match groupRooms st !! room_id with
        | Some members => join_group c room_id members st
        | None => st
        end in
      Done st' [Join (socket c) room_id]
  end.

(** lines 163-182 *)
Definition on_group_message (c : Conn) (env : Env) (data : GroupMessageData)
    (st : Store) : Outcome :=
  match required (gm_group_id data) with
  | None => Done st []
  | Some group_id =>
      if negb (truthy_opt (gm_content data))
         && negb (truthy_opt (gm_fileUrl data))
      then Done st []
      else
        Done st [Emit (ToRoom group_id) "receive-message"
                   (GroupMessage (uuid env) group_id (userId c)
                      (gm_content data)
                      (default "text" (required (gm_type data)))
                      (gm_fileUrl data) (now env))]
  end.

(** lines 185-197.  [message.content] is evaluated only when [contactId] is
    truthy, and dereferences [message]. *)
Definition on_send_message (c : Conn) (data : SendMessageData) (st : Store)
  : Outcome :=
  match required (contactId data) with
  | None => Done st []
  | Some contact =>
      match message data with
      | None => Raised TypeError
      | Some m =>
          if negb (truthy_opt (content m)) && negb (truthy_opt (fileUrl m))
          then Done st []
          else
            match activeConnections st !! contact with
            | Some recipientSocket =>
                Done st [Emit (ToSocket recipientSocket) "receive-message"
                           (DirectMessage m)]
            | None => Done st []
            end
      end
  end.

(** The predicate of lines 209-211 and 257-259. *)
Definition is_pending (sender receiver : string) (req : FriendRequest) : bool :=
  bool_decide (sender_id req = sender)
  && bool_decide (receiver_id req = receiver)
  && bool_decide (status req = Pending).

(** [arr.findIndex(p)], [None] for -1 *)
Fixpoint findIndex {A} (p : A → bool) (arr : list A) : option nat :=
  match arr with
  | [] => None
  | x :: rest => if p x then Some 0 else S <$> findIndex p rest
  end.

Definition set_status (s : RequestStatus) (req : FriendRequest) : FriendRequest :=
  {| sender_id := sender_id req; receiver_id := receiver_id req; status := s |}.

(** lines 200-245 *)
Definition on_friend_request (c : Conn) (data : FriendRequestData)
    (st : Store) : Outcome :=
  match required (fr_receiver_id data) with
  | None => Done st []
  | Some receiver =>
      match find (is_pending (userId c) receiver) (friendRequests st) with
      | Some existingRequest =>
          Done st [Emit (ToSocket (socket c)) "friend_request_sent"
                     (FriendRequestAck receiver "already_sent"
                        (fr_timestamp data))]
      | None =>
          let st1 := set_friendRequests
                       (friendRequests st ++
                          [{| sender_id := userId c; receiver_id := receiver;
                              status := Pending |}]) st in
          let notify :=
            match activeConnections st1 !! receiver with
            | Some receiverSocket =>
                [Emit (ToSocket receiverSocket) "friend_request"
                   (FriendRequestFrom (userId c) (fr_timestamp data))]
            | None => []
            end in
          Done st1 (notify ++
                    [Emit (ToSocket (socket c)) "friend_request_sent"
                       (FriendRequestAck receiver "sent" (fr_timestamp data))])
      end
  end.

(** [accepted ? 'accepted' : 'rejected'] *)
Definition resolution (acc : option bool) : RequestStatus :=
  match acc with
  | Some true => Accepted
  | _ => Rejected
  end.

(** lines 248-290 *)
Definition on_friend_request_response (c : Conn) (data : FriendResponseData)
    (st : Store) : Outcome :=
  match required (rs_sender_id data) with
  | None => Done st []
  | Some sender =>
      match findIndex (is_pending sender (userId c)) (friendRequests st) with
      | None =>
          Done st [Emit (ToSocket (socket c)) "friend_request_response_sent"
                     (FriendResponseNotFound sender "not_found"
                        (rs_timestamp data))]
      | Some requestIndex =>
          let st1 := set_friendRequests
                       (alter (set_status (resolution (rs_accepted data)))
                              requestIndex (friendRequests st)) st in
          let notify :=
            match activeConnections st1 !! sender with
            | Some senderSocket =>
                [Emit (ToSocket senderSocket) "friend_request_response"
                   (FriendResponseFrom (userId c) (rs_accepted data)
                      (rs_timestamp data))]
            | None => []
            end in
          Done st1 (notify ++
                    [Emit (ToSocket (socket c)) "friend_request_response_sent"
                       (FriendResponseAck sender (rs_accepted data)
                          (rs_timestamp data))])
      end
  end.

(** lines 293-311 *)
Definition on_disconnect (c : Conn) (st : Store) : Outcome :=
  if truthy (userId c) then
    let st1 := set_activeConnections
                 (delete (userId c) (activeConnections st)) st in
    let st2 := set_userStatus (<[userId c := Offline]> (userStatus st1)) st1 in
    Done st2 (notify_groups c Offline st2)
  else Done st [].

(** The listeners registered by [socket.on]. *)
Definition on (c : Conn) (env : Env) (ev : Inbound) (st : Store) : Outcome :=
  match ev with
  | create_group data => on_create_group c env data st
  | join_room data => on_join_room c data st
  | group_message data => on_group_message c env data st
  | send_message data => on_send_message c data st
  | friend_request data => on_friend_request c data st
  | friend_request_response data => on_friend_request_response c data st
  | disconnect => on_disconnect c st
  end.

(** ** Runs of the server

    One step is a new connection or one event handled to completion on some
    connection.  A handler that raises ends the run.  Every connection and
    event is allowed at every step, so the reachable stores include those of
    every real run. *)
Inductive step (st : Store) : Store → Prop :=
  | step_connection c : step st (connection c st).1
  | step_on c env ev st' out : on c env ev st = Done st' out → step st st'.

Definition reachable (st : Store) : Prop := rtc step init st.

(** ** Invariants of the stores *)

(** Forward map and reverse index agree. *)
Definition consistent (st : Store) : Prop :=
  ∀ u G, u ∈ membersOf st G ↔ G ∈ groupsOf st u.

(** Presence follows the session registry. *)
Definition presence_inv (st : Store) : Prop :=
  ∀ A, statusOf st A = Some Online ↔ is_Some (lookup_session st A).

(** Number of pending records of the ordered pair (sender, receiver). *)
Definition pending_count (sender receiver : string) (l : list FriendRequest)
  : nat :=
  length (List.filter (is_pending sender receiver) l).

Definition ledger_unique (st : Store) : Prop :=
  ∀ s r, (pending_count s r (friendRequests st) ≤ 1)%nat.

(** ** The validation guards

    [fails_guard ev] holds when the guard at the head of the handler of [ev]
    returns early (lines 108, 139, 166, 188, 203, 251).  The guard of line
    188 reads [message.content] and [message.fileUrl], so it can only return
    early on a truthy [contactId] when [message] is there. *)
Definition fails_guard (ev : Inbound) : bool :=
  match ev with
  | create_group d => negb (truthy_opt (cg_name d))
  | join_room d => negb (truthy_opt (jr_room_id d))
  | group_message d =>
      negb (truthy_opt (gm_group_id d))
      || (negb (truthy_opt (gm_content d)) && negb (truthy_opt (gm_fileUrl d)))
  | send_message d =>
      negb (truthy_opt (contactId d))
      || match message d with
         | Some m => negb (truthy_opt (content m)) && negb (truthy_opt (fileUrl m))
         | None => false
         end
  | friend_request d => negb (truthy_opt (fr_receiver_id d))
  | friend_request_response d => negb (truthy_opt (rs_sender_id d))
  | disconnect => false
  end.

(** ** Sample connections and payloads

    Two transports of "alice" (a reconnect), one of "bob", and a few
    payloads, used to run the handlers on concrete inputs. *)

Definition alice1 : Conn := {| socket := 1; token := "alice" |}.
Definition alice2 : Conn := {| socket := 2; token := "alice" |}.
Definition bob1 : Conn := {| socket := 3; token := "bob" |}.

Definition env1 : Env := {| uuid := "g-1"; now := "t1" |}.
Definition env2 : Env := {| uuid := "g-2"; now := "t2" |}.

Definition pending_record (s r : string) : FriendRequest :=
  {| sender_id := s; receiver_id := r; status := Pending |}.

Definition resolved_record (s r : string) (acc : option bool) : FriendRequest :=
  {| sender_id := s; receiver_id := r; status := resolution acc |}.

(** create_group {name: "team", members: ["bob"]} *)
Definition team_with_bob : CreateGroupData :=
  {| cg_name := Some "team"; cg_members := Some ["bob"] |}.

(** create_group {name: "team"} *)
Definition team_default : CreateGroupData :=
  {| cg_name := Some "team"; cg_members := None |}.

(** send-message {contactId: "bob"} : no message body at all *)
Definition message_without_body : SendMessageData :=
  {| contactId := Some "bob"; message := None; is_anonymous := None |}.

(** friend_request {receiver_id: "bob", timestamp: "t1"} *)
Definition request_to_bob : FriendRequestData :=
  {| fr_receiver_id := Some "bob"; fr_timestamp := Some "t1" |}.

(** The store after alice connected and asked bob. *)
Definition alice_asked_bob : Store :=
  set_friendRequests [pending_record "alice" "bob"] (connection alice1 init).1.

(** ** Runs with fresh group ids

    [uuidv4()] is meant to return an id that is not in use.  A fresh step is
    a step in which the id generated for [create_group] is not yet a key of
    [groupRooms] (the id generated for a group message is not constrained). *)
Definition uuid_fresh (env : Env) (ev : Inbound) (st : Store) : Prop :=
  match ev with
  | create_group _ => groupRooms st !! uuid env = None
  | _ => True
  end.

Inductive fresh_step (st : Store) : Store → Prop :=
  | fresh_connection c : fresh_step st (connection c st).1
  | fresh_on c env ev st' out :
      uuid_fresh env ev st → on c env ev st = Done st' out → fresh_step st st'.

(** Every group list is duplicate free and names registered groups only. *)
Definition index_wf (st : Store) : Prop :=
  ∀ u, NoDup (groupsOf st u)
       ∧ ∀ g, g ∈ groupsOf st u → is_Some (groupRooms st !! g).

(** [l'] keeps the history of [l]: no record is removed or moved, no record
    changes its sender or receiver, and a resolved record keeps its status. *)
Definition ledger_extends (l l' : list FriendRequest) : Prop :=
  (length l ≤ length l')%nat
  ∧ ∀ i r, l !! i = Some r →
      ∃ r', l' !! i = Some r'
            ∧ sender_id r' = sender_id r
            ∧ receiver_id r' = receiver_id r
            ∧ (status r ≠ Pending → status r' = status r).

(** The identity an event names as its recipient: [contactId] (line 193),
    [receiver_id] (line 231) or [sender_id] (line 275). *)
Definition addressee (ev : Inbound) : option string :=
  match ev with
  | send_message d => contactId d
  | friend_request d => fr_receiver_id d
  | friend_request_response d => rs_sender_id d
  | _ => None
  end.

(** The member-status events of lines 92-95 and 304-307. *)
Definition member_status_event (c : Conn) (s : PresenceStatus)
    (groupId : string) : Effect :=
  Emit (ToRoomExcept groupId (socket c)) "member-status"
       (MemberStatus (userId c) s).

(** friend_request_response {sender_id: "alice", accepted: false} *)
Definition bob_says_no : FriendResponseData :=
  {| rs_sender_id := Some "alice"; rs_accepted := Some false;
     rs_timestamp := None |}.

(** The store after bob rejected alice's request. *)
Definition bob_rejected_alice : Store :=
  set_friendRequests [resolved_record "alice" "bob" (Some false)]
    alice_asked_bob.

(** The store after alice connected and created a group with bob listed. *)
Definition alice_listed_bob : Store :=
  set_userGroups {[ "alice" := ["g-1"] ]}
    (set_groupRooms {[ "g-1" := ["bob"] ]} (connection alice1 init).1).

(** ** Basic facts *)

Lemma truthy_spec s : truthy s = true ↔ s ≠ "".
Proof. destruct s; simpl; split; intros; congruence. Qed.

Lemma required_Some o s : required o = Some s ↔ o = Some s ∧ truthy s = true.
Proof.
  unfold required. destruct o as [x|]; [|split; [done|by intros [? _]]].
  destruct (truthy x) eqn:E; split.
  - by intros [= ->].
  - by intros [[= ->] _].
  - done.
  - intros [[= ->] ?]. congruence.
Qed.

Lemma required_truthy s : truthy s = true → required (Some s) = Some s.
Proof. intros H. simpl. by rewrite H. Qed.

Lemma includes_true x l : includes x l = true ↔ x ∈ l.
Proof. unfold includes. apply bool_decide_eq_true. Qed.

Lemma includes_false x l : includes x l = false ↔ x ∉ l.
Proof. unfold includes. apply bool_decide_eq_false. Qed.

(** Only [connection] and [disconnect] write the registry and the status
    map. *)
Lemma registry_untouched c env ev st st' out :
  ev ≠ disconnect →
  on c env ev st = Done st' out →
  activeConnections st' = activeConnections st ∧ userStatus st' = userStatus st.
Proof.
  intros Hev H. destruct ev as [d|d|d|d|d|d|]; simpl in H; [..|done].
  - unfold on_create_group in H. destruct (required _); simplify_eq; [|done].
    simpl. unfold ensure_userGroups. by destruct (userGroups _ !! _).
  - unfold on_join_room in H. destruct (required _); simplify_eq; [|done].
    destruct (groupRooms st !! _); [|done].
    unfold join_group, ensure_userGroups.
    repeat (case_match; simpl); done.
  - unfold on_group_message in H. repeat case_match; by simplify_eq.
  - unfold on_send_message in H. repeat case_match; by simplify_eq.
  - unfold on_friend_request in H. repeat case_match; by simplify_eq.
  - unfold on_friend_request_response in H. repeat case_match; by simplify_eq.
Qed.

Lemma connection_presence c st :
  presence_inv st → presence_inv (connection c st).1.
Proof.
  intros Hinv A. unfold connection.
  destruct (truthy (userId c)); [|apply Hinv].
  unfold statusOf, lookup_session. simpl.
  destruct (decide (userId c = A)) as [->|Hne].
  - rewrite !lookup_insert_eq. naive_solver.
  - rewrite !lookup_insert_ne by done. apply Hinv.
Qed.

Lemma disconnect_presence c st st' out :
  presence_inv st → on_disconnect c st = Done st' out → presence_inv st'.
Proof.
  intros Hinv H A. unfold on_disconnect in H.
  destruct (truthy (userId c)); simplify_eq; [|apply Hinv].
  unfold statusOf, lookup_session. simpl.
  destruct (decide (userId c = A)) as [->|Hne].
  - rewrite lookup_insert_eq, lookup_delete_eq. split; [done|].
    intros [? ?]; done.
  - rewrite lookup_insert_ne, lookup_delete_ne by done. apply Hinv.
Qed.

Lemma step_presence st st' : step st st' → presence_inv st → presence_inv st'.
Proof.
  intros [c|c env ev st'' out H] Hinv.
  - by apply connection_presence.
  - assert (ev = disconnect ∨ ev ≠ disconnect) as [->|Hev]
      by (destruct ev; auto).
    + by eapply disconnect_presence.
    + destruct (registry_untouched _ _ _ _ _ _ Hev H) as [Ha Hs].
      intros A. unfold statusOf, lookup_session. rewrite Ha, Hs. apply Hinv.
Qed.

Lemma reachable_presence st : reachable st → presence_inv st.
Proof.
  intros H. apply (rtc_ind_r (R:=step) presence_inv init); [| |exact H].
  - intros A. unfold statusOf, lookup_session. simpl.
    rewrite !lookup_empty. split; [done|]. by intros [? ?].
  - intros y z _ Hstep IH. by eapply step_presence.
Qed.

(** ** Group membership store *)

Lemma ensure_userGroups_groupsOf u st v :
  groupsOf (ensure_userGroups u st) v = groupsOf st v.
Proof.
  unfold ensure_userGroups, groupsOf.
  destruct (userGroups st !! u) eqn:E; [done|]. simpl.
  destruct (decide (u = v)) as [->|Hne].
  - by rewrite lookup_insert_eq, E.
  - by rewrite lookup_insert_ne.
Qed.

Lemma ensure_userGroups_groupRooms u st :
  groupRooms (ensure_userGroups u st) = groupRooms st.
Proof. unfold ensure_userGroups. by destruct (userGroups st !! u). Qed.

Lemma ensure_userGroups_has u st :
  is_Some (userGroups (ensure_userGroups u st) !! u).
Proof.
  unfold ensure_userGroups. destruct (userGroups st !! u) eqn:E.
  - by rewrite E.
  - simpl. by rewrite lookup_insert_eq.
Qed.

Lemma ensure_userGroups_id u st :
  is_Some (userGroups st !! u) → ensure_userGroups u st = st.
Proof. intros [l E]. unfold ensure_userGroups. by rewrite E. Qed.

Lemma membersOf_ensure u st G :
  membersOf (ensure_userGroups u st) G = membersOf st G.
Proof. unfold membersOf. by rewrite ensure_userGroups_groupRooms. Qed.

(** What [join_room] on a registered group writes: the caller in the member
    list of the room, the room in the group list of the caller. *)
Lemma join_group_members c room members st G u :
  groupRooms st !! room = Some members →
  u ∈ membersOf (join_group c room members st) G
  ↔ u ∈ membersOf st G ∨ (G = room ∧ u = userId c).
Proof.
  intros Hroom. unfold join_group.
  set (st1 := if includes (userId c) members then st else _).
  assert (u ∈ membersOf st1 G
          ↔ u ∈ membersOf st G ∨ (G = room ∧ u = userId c)) as Hst1.
  { unfold st1. destruct (includes (userId c) members) eqn:Hinc.
    - apply includes_true in Hinc. split; [auto|].
      intros [?|[-> ->]]; [done|]. unfold membersOf. by rewrite Hroom.
    - unfold membersOf. simpl. destruct (decide (room = G)) as [->|Hne].
      + rewrite lookup_insert_eq, Hroom. simpl.
        rewrite elem_of_app, list_elem_of_singleton. naive_solver.
      + rewrite lookup_insert_ne by done. naive_solver. }
  rewrite <- Hst1. case_match; simpl; unfold membersOf; simpl;
    by rewrite ensure_userGroups_groupRooms.
Qed.

Lemma join_group_groups c room members st G u :
  G ∈ groupsOf (join_group c room members st) u
  ↔ G ∈ groupsOf st u ∨ (G = room ∧ u = userId c).
Proof.
  unfold join_group.
  set (st1 := if includes (userId c) members then st else _).
  assert (∀ v, groupsOf st1 v = groupsOf st v) as Hst1.
  { intros v. unfold st1. by case_match. }
  destruct (includes room _) eqn:Hinc.
  - rewrite ensure_userGroups_groupsOf, Hst1.
    apply includes_true in Hinc.
    rewrite ensure_userGroups_groupsOf, Hst1 in Hinc.
    split; [auto|]. by intros [?|[-> ->]].
  - unfold groupsOf at 1. simpl. destruct (decide (userId c = u)) as [<-|Hne].
    + rewrite lookup_insert_eq. simpl.
      rewrite elem_of_app, list_elem_of_singleton.
      rewrite ensure_userGroups_groupsOf, Hst1. naive_solver.
    + rewrite lookup_insert_ne by done.
      fold (groupsOf (ensure_userGroups (userId c) st1) u).
      rewrite ensure_userGroups_groupsOf, Hst1. naive_solver.
Qed.

Lemma join_group_consistent c room members st :
  groupRooms st !! room = Some members →
  consistent st → consistent (join_group c room members st).
Proof.
  intros Hroom Hc u G.
  rewrite join_group_members by done. rewrite join_group_groups.
  rewrite (Hc u G). naive_solver.
Qed.

(** A second [join_room] of the same caller finds both entries in place. *)
Lemma join_group_again c room members st :
  groupRooms st !! room = Some members →
  let st1 := join_group c room members st in
  ∃ members1, groupRooms st1 !! room = Some members1
              ∧ join_group c room members1 st1 = st1.
Proof.
  intros Hroom st1.
  assert (userId c ∈ membersOf st1 room) as Hm
    by (apply join_group_members; auto).
  assert (room ∈ groupsOf st1 (userId c)) as Hg
    by (apply join_group_groups; auto).
  unfold membersOf in Hm.
  destruct (groupRooms st1 !! room) as [members1|] eqn:E;
    [|by apply elem_of_nil in Hm].
  exists members1. split; [done|]. simpl in Hm.
  unfold join_group.
  apply includes_true in Hm. rewrite Hm.
  assert (is_Some (userGroups st1 !! userId c)) as Hsome.
  { unfold groupsOf in Hg. destruct (userGroups st1 !! userId c); [done|].
    by apply elem_of_nil in Hg. }
  rewrite (ensure_userGroups_id _ _ Hsome).
  apply includes_true in Hg. by rewrite Hg.
Qed.

(** What [create_group] writes (for any generated id). *)
Lemma create_group_done c env d st name :
  required (cg_name d) = Some name →
  ∃ st', on c env (create_group d) st
         = Done st' [Join (socket c) (uuid env);
                     Emit (ToSocket (socket c)) "group_created"
                          (GroupCreated (uuid env) name)]
    ∧ groupRooms st'
      = <[uuid env := default [userId c] (cg_members d)]> (groupRooms st)
    ∧ (∀ u G, G ∈ groupsOf st' u
              ↔ G ∈ groupsOf st u ∨ (G = uuid env ∧ u = userId c)).
Proof.
  intros Hname. simpl. unfold on_create_group. rewrite Hname.
  eexists. split; [done|]. split.
  - simpl. by rewrite ensure_userGroups_groupRooms.
  - intros u G. unfold groupsOf at 1. simpl.
    destruct (decide (userId c = u)) as [<-|Hne].
    + rewrite lookup_insert_eq. simpl.
      rewrite elem_of_app, list_elem_of_singleton.
      rewrite ensure_userGroups_groupsOf. unfold groupsOf at 1. simpl.
      naive_solver.
    + rewrite lookup_insert_ne by done.
      fold (groupsOf (ensure_userGroups (userId c)
                        (set_groupRooms
                           (<[uuid env := default [userId c] (cg_members d)]>
                              (groupRooms st)) st)) u).
      rewrite ensure_userGroups_groupsOf. unfold groupsOf at 1. simpl.
      fold (groupsOf st u). naive_solver.
Qed.

Lemma create_group_dropped c env d st :
  required (cg_name d) = None → on c env (create_group d) st = Done st [].
Proof. intros H. simpl. unfold on_create_group. by rewrite H. Qed.

(** ** Friend request ledger *)

Section array_search.
Context {A : Type} (p : A → bool).

Lemma findIndex_None (arr : list A) :
  findIndex p arr = None ↔ find p arr = None.
Proof.
  induction arr as [|x rest IH]; simpl; [done|].
  destruct (p x); [done|].
  destruct (findIndex p rest); simpl; [|by rewrite <- IH].
  split; [done|]. intros H. apply IH in H. done.
Qed.

Lemma findIndex_Some (arr : list A) i :
  findIndex p arr = Some i →
  ∃ x, arr !! i = Some x ∧ p x = true ∧ find p arr = Some x.
Proof.
  revert i. induction arr as [|x rest IH]; intros i; simpl; [done|].
  destruct (p x) eqn:Hp.
  - intros [= <-]. by exists x.
  - destruct (findIndex p rest) as [j|]; simpl; [|done].
    intros [= <-]. destruct (IH j eq_refl) as (y & ? & ? & ?).
    exists y. by split_and!.
Qed.

Lemma find_None_count (arr : list A) :
  find p arr = None ↔ length (List.filter p arr) = 0%nat.
Proof.
  induction arr as [|x rest IH]; simpl; [done|].
  destruct (p x); simpl; [done|apply IH].
Qed.

Lemma count_push (arr : list A) x :
  length (List.filter p (arr ++ [x]))
  = (length (List.filter p arr) + (if p x then 1 else 0))%nat.
Proof.
  rewrite List.filter_app, length_app. simpl. by destruct (p x).
Qed.

(** Counting after the assignment [arr[i] = y]. *)
Lemma count_insert (arr : list A) i x y :
  arr !! i = Some x →
  (length (List.filter p (<[i := y]> arr)) + (if p x then 1 else 0)
   = length (List.filter p arr) + (if p y then 1 else 0))%nat.
Proof.
  revert i. induction arr as [|z rest IH]; intros [|i]; simpl; try done.
  - intros [= ->]. destruct (p x), (p y); simpl; lia.
  - intros H. specialize (IH i H).
    change (list_insert i y rest) with (<[i := y]> rest).
    destruct (p z); simpl; lia.
Qed.
End array_search.

Lemma is_pending_true s r req :
  is_pending s r req = true
  ↔ sender_id req = s ∧ receiver_id req = r ∧ status req = Pending.
Proof.
  unfold is_pending. rewrite !andb_true_iff, !bool_decide_eq_true.
  naive_solver.
Qed.

Lemma is_pending_resolved s r s' r' acc :
  is_pending s' r'
    {| sender_id := s; receiver_id := r; status := resolution acc |} = false.
Proof.
  apply not_true_is_false. rewrite is_pending_true. simpl.
  intros (_ & _ & H). by destruct acc as [[]|].
Qed.

Lemma is_pending_new s r s' r' :
  is_pending s' r' {| sender_id := s; receiver_id := r; status := Pending |}
  = bool_decide (s = s' ∧ r = r').
Proof.
  unfold is_pending. simpl.
  repeat case_bool_decide; simpl; naive_solver.
Qed.

(** The two outcomes of [friend_request], on any store. *)
Lemma friend_request_created c d st r :
  required (fr_receiver_id d) = Some r →
  pending_count (userId c) r (friendRequests st) = 0%nat →
  on_friend_request c d st
  = Done (set_friendRequests
            (friendRequests st ++
               [{| sender_id := userId c; receiver_id := r;
                   status := Pending |}]) st)
         (match lookup_session st r with
          | Some receiverSocket =>
              [Emit (ToSocket receiverSocket) "friend_request"
                 (FriendRequestFrom (userId c) (fr_timestamp d))]
          | None => []
          end ++
          [Emit (ToSocket (socket c)) "friend_request_sent"
             (FriendRequestAck r "sent" (fr_timestamp d))]).
Proof.
  intros Hr Hcount. unfold on_friend_request. rewrite Hr.
  apply find_None_count in Hcount. by rewrite Hcount.
Qed.

Lemma friend_request_already c d st r :
  required (fr_receiver_id d) = Some r →
  pending_count (userId c) r (friendRequests st) ≠ 0%nat →
  on_friend_request c d st
  = Done st [Emit (ToSocket (socket c)) "friend_request_sent"
               (FriendRequestAck r "already_sent" (fr_timestamp d))].
Proof.
  intros Hr Hcount. unfold on_friend_request. rewrite Hr.
  destruct (find _ _) eqn:E; [done|].
  by apply find_None_count in E.
Qed.

(** The two outcomes of [friend_request_response]. *)
Lemma response_not_found c d st s :
  required (rs_sender_id d) = Some s →
  pending_count s (userId c) (friendRequests st) = 0%nat →
  on_friend_request_response c d st
  = Done st [Emit (ToSocket (socket c)) "friend_request_response_sent"
               (FriendResponseNotFound s "not_found" (rs_timestamp d))].
Proof.
  intros Hs Hcount. unfold on_friend_request_response. rewrite Hs.
  apply find_None_count, findIndex_None in Hcount. by rewrite Hcount.
Qed.

Lemma response_resolved c d st s :
  required (rs_sender_id d) = Some s →
  pending_count s (userId c) (friendRequests st) ≠ 0%nat →
  ∃ i, findIndex (is_pending s (userId c)) (friendRequests st) = Some i
    ∧ friendRequests st !! i
      = Some {| sender_id := s; receiver_id := userId c; status := Pending |}
    ∧ on_friend_request_response c d st
      = Done (set_friendRequests
                (<[i := {| sender_id := s; receiver_id := userId c;
                           status := resolution (rs_accepted d) |}]>
                   (friendRequests st)) st)
             (match lookup_session st s with
              | Some senderSocket =>
                  [Emit (ToSocket senderSocket) "friend_request_response"
                     (FriendResponseFrom (userId c) (rs_accepted d)
                        (rs_timestamp d))]
              | None => []
              end ++
              [Emit (ToSocket (socket c)) "friend_request_response_sent"
                 (FriendResponseAck s (rs_accepted d) (rs_timestamp d))]).
Proof.
  intros Hs Hcount. unfold on_friend_request_response. rewrite Hs.
  destruct (findIndex _ _) as [i|] eqn:E.
  - destruct (findIndex_Some _ _ _ E) as (x & Hx & Hp & _).
    apply is_pending_true in Hp as (H1 & H2 & H3).
    destruct x as [xs xr xst]; simpl in *; subst.
    exists i. split; [done|]. split; [done|]. do 2 f_equal.
    apply list_eq. intros j. destruct (decide (i = j)) as [<-|Hne].
    + rewrite list_lookup_alter_eq, Hx. simpl.
      rewrite list_lookup_insert_eq; [done|]. by eapply lookup_lt_Some.
    + by rewrite list_lookup_alter_ne, list_lookup_insert_ne.
  - apply findIndex_None, find_None_count in E. done.
Qed.

(** At most one pending record per ordered pair, on every run. *)
Lemma ensure_userGroups_friendRequests u st :
  friendRequests (ensure_userGroups u st) = friendRequests st.
Proof. unfold ensure_userGroups. by destruct (userGroups st !! u). Qed.

Lemma join_group_friendRequests c room members st :
  friendRequests (join_group c room members st) = friendRequests st.
Proof.
  unfold join_group. repeat (case_match; simpl);
    by rewrite ensure_userGroups_friendRequests.
Qed.

Lemma friend_request_unique c d st st' out :
  on_friend_request c d st = Done st' out →
  ledger_unique st → ledger_unique st'.
Proof.
  intros H Hu. destruct (required (fr_receiver_id d)) as [r|] eqn:Hr.
  - destruct (decide (pending_count (userId c) r (friendRequests st) = 0%nat))
      as [H0|H0].
    + rewrite (friend_request_created _ _ _ _ Hr H0) in H. simplify_eq.
      intros s' r'. simpl. unfold pending_count.
      rewrite count_push, is_pending_new. case_bool_decide as Hp.
      * destruct Hp as [<- <-]. unfold pending_count in H0. lia.
      * specialize (Hu s' r'). unfold pending_count in Hu. lia.
    + rewrite (friend_request_already _ _ _ _ Hr H0) in H. by simplify_eq.
  - unfold on_friend_request in H. rewrite Hr in H. by simplify_eq.
Qed.

Lemma response_unique c d st st' out :
  on_friend_request_response c d st = Done st' out →
  ledger_unique st → ledger_unique st'.
Proof.
  intros H Hu. destruct (required (rs_sender_id d)) as [s|] eqn:Hs.
  - destruct (decide (pending_count s (userId c) (friendRequests st) = 0%nat))
      as [H0|H0].
    + rewrite (response_not_found _ _ _ _ Hs H0) in H. by simplify_eq.
    + destruct (response_resolved _ _ _ _ Hs H0) as (i & _ & Hi & Heq).
      rewrite Heq in H. simplify_eq. intros s' r'. simpl.
      pose proof (count_insert (is_pending s' r') _ i _
                    {| sender_id := s; receiver_id := userId c;
                       status := resolution (rs_accepted d) |} Hi) as Hc.
      rewrite is_pending_resolved in Hc.
      specialize (Hu s' r'). unfold pending_count in *. lia.
  - unfold on_friend_request_response in H. rewrite Hs in H. by simplify_eq.
Qed.

Lemma step_ledger_unique st st' :
  step st st' → ledger_unique st → ledger_unique st'.
Proof.
  intros [c|c env ev st'' out H] Hu.
  - unfold connection. by destruct (truthy (userId c)).
  - destruct ev as [d|d|d|d|d|d|]; simpl in H.
    + unfold on_create_group in H. destruct (required _); simplify_eq; [|done].
      intros s' r'. simpl. rewrite ensure_userGroups_friendRequests. apply Hu.
    + unfold on_join_room in H. destruct (required _); simplify_eq; [|done].
      intros s' r'. destruct (groupRooms st !! _); [|apply Hu].
      rewrite join_group_friendRequests. apply Hu.
    + unfold on_group_message in H. repeat case_match; by simplify_eq.
    + unfold on_send_message in H. repeat case_match; by simplify_eq.
    + by eapply friend_request_unique.
    + by eapply response_unique.
    + unfold on_disconnect in H. destruct (truthy (userId c)); by simplify_eq.
Qed.

Lemma reachable_ledger_unique st : reachable st → ledger_unique st.
Proof.
  intros H. apply (rtc_ind_r (R:=step) ledger_unique init); [| |exact H].
  - intros s r. unfold pending_count. simpl. lia.
  - intros y z _ Hstep IH. by eapply step_ledger_unique.
Qed.

(** ** Session registry *)

Lemma connection_registered c st :
  truthy (userId c) = true →
  activeConnections (connection c st).1
  = <[userId c := socket c]> (activeConnections st)
  ∧ userStatus (connection c st).1 = <[userId c := Online]> (userStatus st).
Proof. intros H. unfold connection. by rewrite H. Qed.

Lemma disconnect_unregistered c st :
  truthy (userId c) = true →
  ∃ st' out, on_disconnect c st = Done st' out
    ∧ activeConnections st' = delete (userId c) (activeConnections st)
    ∧ userStatus st' = <[userId c := Offline]> (userStatus st).
Proof. intros H. unfold on_disconnect. rewrite H. by do 2 eexists. Qed.

(** C4.  For every identity [A] (a token that passes the guard of line 83),
    two connections in succession with different sockets [s1] then [s2]
    leave one registry entry for [A], holding [s2]: [lookup A] returns [s2]
    and not [s1], the status of [A] is online, the registry gained no key
    other than [A], and every other identity keeps its entry.
    [connection] is a total function with no error outcome. *)
Theorem C4_register_twice_keeps_second (A : string) (s1 s2 : SocketId)
    (st : Store) :
  truthy A = true →
  s1 ≠ s2 →
  let st1 := (connection {| socket := s1; token := A |} st).1 in
  let st2 := (connection {| socket := s2; token := A |} st1).1 in
  lookup_session st2 A = Some s2
  ∧ lookup_session st2 A ≠ Some s1
  ∧ statusOf st2 A = Some Online
  ∧ dom (activeConnections st2) = {[A]} ∪ dom (activeConnections st)
  ∧ (∀ B, B ≠ A → lookup_session st2 B = lookup_session st B).
Proof.
  intros HA Hne st1 st2.
  destruct (connection_registered {| socket := s2; token := A |} st1 HA)
    as [Ha2 Hs2].
  destruct (connection_registered {| socket := s1; token := A |} st HA)
    as [Ha1 Hs1].
  fold st1 in Ha1, Hs1. fold st2 in Ha2, Hs2.
  unfold lookup_session, statusOf. rewrite Ha2, Hs2, Ha1.
  unfold userId, verifyUser. simpl.
  rewrite !lookup_insert_eq. split_and!; try done.
  - congruence.
  - rewrite !dom_insert_L. set_solver.
  - intros B HB. by rewrite !lookup_insert_ne.
Qed.

Lemma C4_register_twice_keeps_second_witness :
  truthy "alice" = true ∧ 1 ≠ 2
  ∧ lookup_session (connection alice2 (connection alice1 init).1).1 "alice"
    = Some 2.
Proof.
  split; [reflexivity|]. split; [lia|].
  apply (C4_register_twice_keeps_second "alice" 1 2 init); [reflexivity|lia].
Defined.

(** C9.  After [A] reconnected (socket [s2] replaced [s1] in the registry),
    the disconnect event of the replaced transport [s1] deletes the entry of
    [A], which holds the live socket [s2], and sets the status of [A] to
    offline: [lookup A] is absent although [s2] is still connected. *)
Theorem C9_stale_disconnect_evicts_live_session (A : string)
    (s1 s2 : SocketId) (env : Env) (st : Store) :
  truthy A = true →
  s1 ≠ s2 →
  let c1 := {| socket := s1; token := A |} in
  let c2 := {| socket := s2; token := A |} in
  let st2 := (connection c2 (connection c1 st).1).1 in
  lookup_session st2 A = Some s2
  ∧ ∃ st3 out,
      on c1 env disconnect st2 = Done st3 out
      ∧ lookup_session st3 A = None
      ∧ statusOf st3 A = Some Offline.
Proof.
  intros HA Hne c1 c2 st2.
  destruct (connection_registered c2 (connection c1 st).1 HA) as [Ha2 _].
  fold st2 in Ha2.
  destruct (disconnect_unregistered c1 st2 HA) as (st3 & out & Hd & Ha3 & Hs3).
  split.
  - unfold lookup_session. rewrite Ha2. apply lookup_insert_eq.
  - exists st3, out. split; [exact Hd|].
    unfold lookup_session, statusOf. rewrite Ha3, Hs3.
    split; [apply lookup_delete_eq|apply lookup_insert_eq].
Qed.

Lemma C9_stale_disconnect_evicts_live_session_witness :
  truthy "alice" = true ∧ 1 ≠ 2
  ∧ lookup_session (connection alice2 (connection alice1 init).1).1 "alice"
    = Some 2
  ∧ ∃ st3 out,
      on alice1 env1 disconnect (connection alice2 (connection alice1 init).1).1
      = Done st3 out
      ∧ lookup_session st3 "alice" = None
      ∧ statusOf st3 "alice" = Some Offline.
Proof.
  split; [reflexivity|]. split; [lia|].
  apply (C9_stale_disconnect_evicts_live_session "alice" 1 2 env1 init);
    [reflexivity|lia].
Defined.

(** C8.  In every reachable store an identity has status online exactly when
    it has an entry in the session registry, and an identity whose status is
    offline has no entry.  Only [connection] and [disconnect] write the two
    maps: every other event leaves both as they are. *)
Theorem C8_presence_follows_registry (st : Store) :
  reachable st →
  (∀ A, statusOf st A = Some Online ↔ is_Some (lookup_session st A))
  ∧ (∀ A, statusOf st A = Some Offline → lookup_session st A = None)
  ∧ (∀ c env ev st' out,
       ev ≠ disconnect → on c env ev st = Done st' out →
       activeConnections st' = activeConnections st
       ∧ userStatus st' = userStatus st).
Proof.
  intros Hr. pose proof (reachable_presence st Hr) as Hinv.
  split_and!.
  - exact Hinv.
  - intros A Hoff. destruct (lookup_session st A) eqn:E; [|done].
    assert (statusOf st A = Some Online) as Hon by (apply Hinv; eauto).
    congruence.
  - intros c env ev st' out. apply registry_untouched.
Qed.

Lemma C8_presence_follows_registry_witness :
  reachable (connection alice1 init).1
  ∧ (statusOf (connection alice1 init).1 "alice" = Some Online
     ↔ is_Some (lookup_session (connection alice1 init).1 "alice")).
Proof.
  assert (reachable (connection alice1 init).1) as Hr.
  { apply rtc_once. apply step_connection. }
  split; [exact Hr|].
  apply (C8_presence_follows_registry _ Hr).
Defined.

(** ** Group membership: create_group and join_room *)

Lemma consistent_init : consistent init.
Proof.
  intros u G. unfold membersOf, groupsOf. simpl. rewrite !lookup_empty.
  simpl. split; intros H; by apply elem_of_nil in H.
Qed.

Lemma join_room_consistent c env d st :
  consistent st →
  ∃ st' out, on c env (join_room d) st = Done st' out ∧ consistent st'.
Proof.
  intros Hc. simpl. unfold on_join_room.
  destruct (required (jr_room_id d)) as [room|]; [|by do 2 eexists].
  do 2 eexists. split; [done|].
  destruct (groupRooms st !! room) as [members|] eqn:E; [|done].
  by apply join_group_consistent.
Qed.

(** The claim of C1 fails on [create_group] with an explicit member list:
    alice creates a group with members ["bob"] on the empty store; bob is in
    the member list of the new group and the new group is not in bob's
    group list (and alice has the group without being in its member list). *)
Lemma C1_create_group_breaks_consistency :
  consistent init
  ∧ ∃ st' out,
      on alice1 env1 (create_group team_with_bob) init = Done st' out
      ∧ "bob" ∈ membersOf st' "g-1"
      ∧ ("g-1" ∉ groupsOf st' "bob")
      ∧ ¬ consistent st'.
Proof.
  split; [apply consistent_init|].
  do 2 eexists. split; [reflexivity|].
  assert ("bob" ∈ ["bob"]) as Hin by apply list_elem_of_here.
  assert ("g-1" ∉ @nil string) as Hnin by apply not_elem_of_nil.
  split_and!.
  - exact Hin.
  - exact Hnin.
  - intros Hc. apply Hnin. apply (Hc "bob" "g-1"). exact Hin.
Qed.

(** C1 (amended).  From a consistent store, [join_room] returns a consistent
    store.  [create_group] leaves the agreement of forward map and reverse
    index intact for every group other than the new one and, when the
    generated id is not yet a group, puts the new group in the reverse index
    of the caller and of nobody else; the whole store stays consistent when
    the stored member list holds the caller alone (no member list given). *)
Theorem C1_membership_consistency (c : Conn) (env : Env) (st : Store) :
  consistent st →
  (∀ d, ∃ st' out, on c env (join_room d) st = Done st' out ∧ consistent st')
  ∧ (∀ d, ∃ st' out,
       on c env (create_group d) st = Done st' out
       ∧ (∀ u G, G ≠ uuid env → (u ∈ membersOf st' G ↔ G ∈ groupsOf st' u))
       ∧ (groupRooms st !! uuid env = None →
          (is_Some (required (cg_name d)) →
           ∀ u, uuid env ∈ groupsOf st' u ↔ u = userId c)
          ∧ ((∀ u, u ∈ default [userId c] (cg_members d) ↔ u = userId c) →
             consistent st'))).
Proof.
  intros Hc. split; [intros d; by apply join_room_consistent|].
  intros d. destruct (required (cg_name d)) as [name|] eqn:Hname.
  - destruct (create_group_done c env d st name Hname)
      as (st' & Hon & Hrooms & Hgroups).
    exists st'. eexists. split; [exact Hon|].
    assert (∀ u G, G ≠ uuid env → (u ∈ membersOf st' G ↔ G ∈ groupsOf st' u))
      as Hother.
    { intros u G HG. rewrite Hgroups. unfold membersOf at 1.
      rewrite Hrooms, lookup_insert_ne by done.
      fold (membersOf st G). rewrite (Hc u G). naive_solver. }
    split; [exact Hother|]. intros Hfresh.
    assert (∀ u, uuid env ∈ groupsOf st' u ↔ u = userId c) as Hnew.
    { intros u. rewrite Hgroups. split; [|auto].
      intros [Hold|[_ ->]]; [|done].
      apply Hc in Hold. unfold membersOf in Hold. rewrite Hfresh in Hold.
      by apply elem_of_nil in Hold. }
    split; [intros _; exact Hnew|].
    intros Hsolo u G. destruct (decide (G = uuid env)) as [->|HG].
    + rewrite Hnew. unfold membersOf. rewrite Hrooms, lookup_insert_eq.
      simpl. apply Hsolo.
    + by apply Hother.
  - exists st, []. split; [by apply create_group_dropped|].
    split; [intros u G _; apply Hc|]. intros _. split.
    + intros [? ?]; done.
    + intros _. exact Hc.
Qed.

Lemma C1_membership_consistency_witness :
  consistent init
  ∧ ∃ st' out,
      on alice1 env1 (create_group team_default) init = Done st' out
      ∧ (∀ u G, G ≠ uuid env1 → (u ∈ membersOf st' G ↔ G ∈ groupsOf st' u)).
Proof.
  split; [apply consistent_init|].
  destruct (C1_membership_consistency alice1 env1 init consistent_init)
    as [_ Hcreate].
  destruct (Hcreate team_default) as (st' & out & Hon & Hother & _).
  exists st', out. split; [exact Hon|exact Hother].
Defined.

(** The claim of C2 fails when the member list omits the caller: the stored
    member list is the list as given, without alice, and bob does not get
    the group in his group list. *)
Lemma C2_member_list_stored_as_given :
  ∃ st' out,
    on alice1 env1 (create_group team_with_bob) init = Done st' out
    ∧ membersOf st' "g-1" = ["bob"]
    ∧ ("alice" ∉ membersOf st' "g-1")
    ∧ ("g-1" ∉ groupsOf st' "bob").
Proof.
  do 2 eexists. split; [reflexivity|]. split; [reflexivity|]. split.
  - intros H. apply list_elem_of_singleton in H. discriminate.
  - apply not_elem_of_nil.
Qed.

(** C2 (amended).  A [create_group] event with a non-empty name, issued by
    caller [c] with a member list that is absent or contains [c], is
    confirmed to the caller and stores a group whose member set is the given
    list united with the caller; the new group id is in the group list of the
    caller, and the group list of every other identity is as before. *)
Theorem C2_create_group_members (c : Conn) (env : Env) (st : Store)
    (name : string) (members : option (list string)) :
  truthy name = true →
  (∀ M, members = Some M → userId c ∈ M) →
  ∃ st',
    on c env (create_group {| cg_name := Some name; cg_members := members |}) st
    = Done st' [Join (socket c) (uuid env);
                Emit (ToSocket (socket c)) "group_created"
                     (GroupCreated (uuid env) name)]
    ∧ (∀ u, u ∈ membersOf st' (uuid env)
            ↔ u ∈ default [] members ∨ u = userId c)
    ∧ uuid env ∈ groupsOf st' (userId c)
    ∧ (∀ u G, u ≠ userId c → (G ∈ groupsOf st' u ↔ G ∈ groupsOf st u)).
Proof.
  intros Hname HM.
  destruct (create_group_done c env
              {| cg_name := Some name; cg_members := members |} st name
              (required_truthy _ Hname)) as (st' & Hon & Hrooms & Hgroups).
  exists st'. split; [exact Hon|]. split_and!.
  - intros u. unfold membersOf. rewrite Hrooms, lookup_insert_eq. simpl.
    destruct members as [M|]; simpl.
    + split; [auto|]. intros [?| ->]; [done|]. by apply HM.
    + rewrite list_elem_of_singleton. split; [auto|].
      intros [H| ->]; [by apply elem_of_nil in H|done].
  - apply Hgroups. auto.
  - intros u G Hu. rewrite Hgroups. naive_solver.
Qed.

Lemma C2_create_group_members_witness :
  truthy "team" = true
  ∧ (∀ M, Some ["bob"; "alice"] = Some M → userId alice1 ∈ M)
  ∧ ∃ st',
      on alice1 env1
         (create_group {| cg_name := Some "team";
                          cg_members := Some ["bob"; "alice"] |}) init
      = Done st' [Join 1 "g-1";
                  Emit (ToSocket 1) "group_created" (GroupCreated "g-1" "team")]
      ∧ (∀ u, u ∈ membersOf st' "g-1" ↔ u ∈ ["bob"; "alice"] ∨ u = "alice")
      ∧ "g-1" ∈ groupsOf st' "alice".
Proof.
  assert (∀ M, Some ["bob"; "alice"] = Some M → userId alice1 ∈ M) as HM.
  { intros M [= <-]. apply list_elem_of_further, list_elem_of_here. }
  split; [reflexivity|]. split; [exact HM|].
  destruct (C2_create_group_members alice1 env1 init "team"
              (Some ["bob"; "alice"]) eq_refl HM)
    as (st' & Hon & Hmem & Hgrp & _).
  exists st'. split; [exact Hon|]. split; [exact Hmem|exact Hgrp].
Defined.

(** C7.  [join_room] is idempotent: for every room id and identity, on any
    store, a second [join_room] (from any transport of the same identity)
    returns the store of the first one unchanged, so [membersOf] and
    [groupsOf] are the same after both.  On a registered group the first
    call appends the identity to the member list only when it is not there
    yet, and the room is then in the group list of the identity. *)
Theorem C7_join_room_idempotent (u : string) (s1 s2 : SocketId)
    (env env' : Env) (d : JoinRoomData) (st : Store) :
  let c1 := {| socket := s1; token := u |} in
  let c2 := {| socket := s2; token := u |} in
  ∃ st1 out1 out2,
    on c1 env (join_room d) st = Done st1 out1
    ∧ on c2 env' (join_room d) st1 = Done st1 out2
    ∧ (∀ room members,
         required (jr_room_id d) = Some room →
         groupRooms st !! room = Some members →
         membersOf st1 room
         = (if includes u members then members else members ++ [u])
         ∧ room ∈ groupsOf st1 u).
Proof.
  intros c1 c2. simpl. unfold on_join_room.
  destruct (required (jr_room_id d)) as [room|] eqn:Hroom.
  - destruct (groupRooms st !! room) as [members|] eqn:E.
    + destruct (join_group_again c1 room members st E) as (m1 & Hm1 & Hagain).
      do 3 eexists. split; [done|]. rewrite Hm1.
      change (join_group c2 room m1) with (join_group c1 room m1).
      rewrite Hagain. split; [done|].
      intros room' members' [= <-] Hm. rewrite E in Hm. simplify_eq.
      split; [|apply join_group_groups; auto].
      unfold membersOf, join_group.
      change (userId c1) with u.
      destruct (includes u members') eqn:Hinc; repeat case_match; simpl;
        rewrite ?ensure_userGroups_groupRooms; simpl;
        rewrite ?lookup_insert_eq, ?E; done.
    + do 3 eexists. split; [done|]. rewrite E. split; [done|].
      intros room' members' [= <-] Hm. congruence.
  - do 3 eexists. split; [done|]. split; [done|]. intros ? ? [=].
Qed.

(** ** Friend requests *)

Lemma pending_count_0 s r (l : list FriendRequest) :
  pending_count s r l = 0%nat ↔ pending_record s r ∉ l.
Proof.
  unfold pending_count. induction l as [|x l IH]; simpl.
  - split; [intros _; apply not_elem_of_nil|done].
  - rewrite not_elem_of_cons. destruct (is_pending s r x) eqn:Hp; simpl.
    + split; [done|]. intros [Hx _]. exfalso. apply Hx.
      apply is_pending_true in Hp as (H1 & H2 & H3).
      destruct x; simpl in *; by subst.
    + rewrite IH. split; [|by intros [_ ?]]. intros Hl. split; [|done].
      intros Hx. subst x. unfold pending_record in Hp.
      rewrite is_pending_new in Hp.
      by apply bool_decide_eq_false in Hp; apply Hp.
Qed.

(** C5.  On a store with no pending record for the ordered pair (sender,
    receiver), two [friend_request] events in a row from the sender to the
    receiver: the first appends one pending record, notifies the receiver
    when it has a session, and acknowledges 'sent' to the caller; the second
    acknowledges 'already_sent' to the caller only and leaves the store as it
    is.  Afterwards the ledger holds exactly one pending record for the
    pair. *)
Theorem C5_friend_request_twice (sender r : string) (s1 s2 : SocketId)
    (env env' : Env) (ts1 ts2 : option string) (st : Store) :
  truthy r = true →
  pending_record sender r ∉ friendRequests st →
  let c1 := {| socket := s1; token := sender |} in
  let c2 := {| socket := s2; token := sender |} in
  ∃ st1,
    on c1 env (friend_request {| fr_receiver_id := Some r;
                                 fr_timestamp := ts1 |}) st
    = Done st1
        (match lookup_session st r with
         | Some receiverSocket =>
             [Emit (ToSocket receiverSocket) "friend_request"
                (FriendRequestFrom sender ts1)]
         | None => []
         end ++
         [Emit (ToSocket s1) "friend_request_sent"
            (FriendRequestAck r "sent" ts1)])
    ∧ friendRequests st1 = friendRequests st ++ [pending_record sender r]
    ∧ on c2 env' (friend_request {| fr_receiver_id := Some r;
                                    fr_timestamp := ts2 |}) st1
      = Done st1 [Emit (ToSocket s2) "friend_request_sent"
                    (FriendRequestAck r "already_sent" ts2)]
    ∧ pending_count sender r (friendRequests st1) = 1%nat.
Proof.
  intros Hr Hnone c1 c2. apply pending_count_0 in Hnone.
  pose proof (required_truthy r Hr) as Hreq.
  exists (set_friendRequests
            (friendRequests st ++ [pending_record sender r]) st).
  split.
  { simpl.
    by rewrite (friend_request_created c1
                  {| fr_receiver_id := Some r; fr_timestamp := ts1 |}
                  st r Hreq Hnone). }
  assert (pending_count sender r
            (friendRequests st ++ [pending_record sender r]) = 1%nat) as H1.
  { unfold pending_count, pending_record in *.
    rewrite count_push, is_pending_new, Hnone.
    by rewrite bool_decide_eq_true_2. }
  split; [done|]. split; [|exact H1].
  simpl.
  rewrite (friend_request_already c2
             {| fr_receiver_id := Some r; fr_timestamp := ts2 |} _ r Hreq);
    [done|].
  simpl. change (userId c2) with sender. rewrite H1. lia.
Qed.

Lemma C5_friend_request_twice_witness :
  truthy "bob" = true
  ∧ (pending_record "alice" "bob" ∉ friendRequests init)
  ∧ ∃ st1,
      on alice1 env1 (friend_request request_to_bob) init
      = Done st1 [Emit (ToSocket 1) "friend_request_sent"
                    (FriendRequestAck "bob" "sent" (Some "t1"))]
      ∧ friendRequests st1 = [pending_record "alice" "bob"]
      ∧ on alice2 env2 (friend_request request_to_bob) st1
        = Done st1 [Emit (ToSocket 2) "friend_request_sent"
                      (FriendRequestAck "bob" "already_sent" (Some "t1"))]
      ∧ pending_count "alice" "bob" (friendRequests st1) = 1%nat.
Proof.
  assert (pending_record "alice" "bob" ∉ friendRequests init) as Hnone
    by apply not_elem_of_nil.
  split; [reflexivity|]. split; [exact Hnone|].
  apply (C5_friend_request_twice "alice" "bob" 1 2 env1 env2
           (Some "t1") (Some "t1") init eq_refl Hnone).
Defined.

Lemma alice_asked_bob_reachable : reachable alice_asked_bob.
Proof.
  unfold reachable. eapply rtc_l; [apply (step_connection init alice1)|].
  apply rtc_once.
  apply (step_on _ alice1 env1 (friend_request request_to_bob) _
           [Emit (ToSocket 1) "friend_request_sent"
              (FriendRequestAck "bob" "sent" (Some "t1"))]).
  reflexivity.
Qed.

(** C6.  In a reachable store, a [friend_request_response] of the receiver
    for a pending record (sender, receiver) resolves that record (its status
    becomes accepted or rejected, the other records are as before); any
    second response for the same pair, from any transport of the receiver,
    emits a single 'not_found' acknowledgment to the responding socket and
    returns the store unchanged.  A response with no matching pending record
    does the same. *)
Theorem C6_resolution_is_final (sender receiver : string) (s1 s2 : SocketId)
    (env env' : Env) (acc1 acc2 : option bool) (ts1 ts2 : option string)
    (st : Store) :
  reachable st →
  truthy sender = true →
  let c1 := {| socket := s1; token := receiver |} in
  let c2 := {| socket := s2; token := receiver |} in
  let d1 := {| rs_sender_id := Some sender; rs_accepted := acc1;
               rs_timestamp := ts1 |} in
  let d2 := {| rs_sender_id := Some sender; rs_accepted := acc2;
               rs_timestamp := ts2 |} in
  (pending_record sender receiver ∈ friendRequests st →
   ∃ i st1 out1,
     on c1 env (friend_request_response d1) st = Done st1 out1
     ∧ friendRequests st !! i = Some (pending_record sender receiver)
     ∧ friendRequests st1
       = <[i := resolved_record sender receiver acc1]> (friendRequests st)
     ∧ (pending_record sender receiver ∉ friendRequests st1)
     ∧ on c2 env' (friend_request_response d2) st1
       = Done st1 [Emit (ToSocket s2) "friend_request_response_sent"
                     (FriendResponseNotFound sender "not_found" ts2)])
  ∧ (pending_record sender receiver ∉ friendRequests st →
     on c1 env (friend_request_response d1) st
     = Done st [Emit (ToSocket s1) "friend_request_response_sent"
                  (FriendResponseNotFound sender "not_found" ts1)]).
Proof.
  intros Hreach Hs c1 c2 d1 d2.
  pose proof (required_truthy sender Hs) as Hreq.
  split.
  - intros Hin.
    assert (pending_count sender receiver (friendRequests st) ≠ 0%nat) as Hn0.
    { intros H0. by apply pending_count_0 in H0. }
    destruct (response_resolved c1 d1 st sender Hreq Hn0)
      as (i & _ & Hi & Hon).
    eexists i, _, _. split; [exact Hon|]. split; [exact Hi|].
    split; [done|].
    assert (pending_count sender receiver
              (<[i := resolved_record sender receiver acc1]>
                 (friendRequests st)) = 0%nat) as H0.
    { pose proof (count_insert (is_pending sender receiver) _ i _
                    (resolved_record sender receiver acc1) Hi) as Hc.
      unfold resolved_record in Hc at 2.
      rewrite is_pending_resolved in Hc.
      change (userId c1) with receiver in Hc.
      rewrite is_pending_new, bool_decide_eq_true_2 in Hc by done.
      pose proof (reachable_ledger_unique st Hreach sender receiver) as Hu.
      unfold pending_count in *. lia. }
    split; [by apply pending_count_0|].
    simpl. by rewrite (response_not_found c2 d2 _ sender Hreq).
  - intros Hnone. apply pending_count_0 in Hnone.
    simpl. by rewrite (response_not_found c1 d1 st sender Hreq Hnone).
Qed.

Lemma C6_resolution_is_final_witness :
  reachable alice_asked_bob
  ∧ truthy "alice" = true
  ∧ pending_record "alice" "bob" ∈ friendRequests alice_asked_bob
  ∧ ∃ i st1 out1,
      on bob1 env1
         (friend_request_response
            {| rs_sender_id := Some "alice"; rs_accepted := Some true;
               rs_timestamp := None |}) alice_asked_bob
      = Done st1 out1
      ∧ friendRequests alice_asked_bob !! i
        = Some (pending_record "alice" "bob")
      ∧ friendRequests st1
        = <[i := resolved_record "alice" "bob" (Some true)]>
            (friendRequests alice_asked_bob)
      ∧ (pending_record "alice" "bob" ∉ friendRequests st1)
      ∧ on bob1 env2
           (friend_request_response
              {| rs_sender_id := Some "alice"; rs_accepted := Some false;
                 rs_timestamp := None |}) st1
        = Done st1 [Emit (ToSocket 3) "friend_request_response_sent"
                      (FriendResponseNotFound "alice" "not_found" None)].
Proof.
  assert (pending_record "alice" "bob" ∈ friendRequests alice_asked_bob)
    as Hin by apply list_elem_of_here.
  split; [exact alice_asked_bob_reachable|]. split; [reflexivity|].
  split; [exact Hin|].
  destruct (C6_resolution_is_final "alice" "bob" 3 3 env1 env2
              (Some true) (Some false) None None alice_asked_bob
              alice_asked_bob_reachable eq_refl) as [Hfirst _].
  exact (Hfirst Hin).
Defined.

(** C10.  [friend_request_response] does not check the [accepted] field: for
    a matching pending record, a response whose [accepted] is absent or
    false resolves the first such record with status rejected; the
    notification to the original sender (emitted when the sender has a
    session) and the acknowledgment to the responder both carry the
    [accepted] value as received. *)
Theorem C10_absent_accepted_rejects (c : Conn) (env : Env) (sender : string)
    (acc : option bool) (ts : option string) (st : Store) :
  truthy sender = true →
  pending_record sender (userId c) ∈ friendRequests st →
  acc = None ∨ acc = Some false →
  ∃ i,
    findIndex (is_pending sender (userId c)) (friendRequests st) = Some i
    ∧ on c env (friend_request_response
                  {| rs_sender_id := Some sender; rs_accepted := acc;
                     rs_timestamp := ts |}) st
      = Done (set_friendRequests
                (<[i := {| sender_id := sender; receiver_id := userId c;
                           status := Rejected |}]> (friendRequests st)) st)
             (match lookup_session st sender with
              | Some senderSocket =>
                  [Emit (ToSocket senderSocket) "friend_request_response"
                     (FriendResponseFrom (userId c) acc ts)]
              | None => []
              end ++
              [Emit (ToSocket (socket c)) "friend_request_response_sent"
                 (FriendResponseAck sender acc ts)]).
Proof.
  intros Hs Hin Hacc.
  assert (pending_count sender (userId c) (friendRequests st) ≠ 0%nat) as Hn0.
  { intros H0. by apply pending_count_0 in H0. }
  destruct (response_resolved c
              {| rs_sender_id := Some sender; rs_accepted := acc;
                 rs_timestamp := ts |} st sender
              (required_truthy sender Hs) Hn0) as (i & Hidx & _ & Hon).
  exists i. split; [exact Hidx|]. simpl. rewrite Hon. simpl.
  by destruct Hacc as [-> | ->].
Qed.

Lemma C10_absent_accepted_rejects_witness :
  truthy "alice" = true
  ∧ pending_record "alice" (userId bob1) ∈ friendRequests alice_asked_bob
  ∧ on bob1 env1
       (friend_request_response
          {| rs_sender_id := Some "alice"; rs_accepted := None;
             rs_timestamp := Some "t2" |}) alice_asked_bob
    = Done (set_friendRequests
              [{| sender_id := "alice"; receiver_id := "bob";
                  status := Rejected |}] alice_asked_bob)
           [Emit (ToSocket 1) "friend_request_response"
              (FriendResponseFrom "bob" None (Some "t2"));
            Emit (ToSocket 3) "friend_request_response_sent"
              (FriendResponseAck "alice" None (Some "t2"))].
Proof.
  assert (pending_record "alice" (userId bob1)
          ∈ friendRequests alice_asked_bob) as Hin by apply list_elem_of_here.
  split; [reflexivity|]. split; [exact Hin|].
  destruct (C10_absent_accepted_rejects bob1 env1 "alice" None (Some "t2")
              alice_asked_bob eq_refl Hin (or_introl eq_refl))
    as (i & Hidx & Hon).
  injection Hidx as <-. exact Hon.
Defined.

(** ** Validation guards *)

(** An event stopped by the guard of its handler changes no store and emits
    nothing. *)
Lemma guard_drops_event c env ev st :
  fails_guard ev = true → on c env ev st = Done st [].
Proof.
  destruct ev as [d|d|d|d|d|d|]; simpl; intros H.
  - unfold on_create_group, required. destruct (cg_name d) as [x|]; [|done].
    simpl in H. by destruct (truthy x).
  - unfold on_join_room, required. destruct (jr_room_id d) as [x|]; [|done].
    simpl in H. by destruct (truthy x).
  - unfold on_group_message, required.
    destruct (gm_group_id d) as [x|]; [|done]. simpl in H.
    destruct (truthy x); [|done]. simpl in H. by rewrite H.
  - unfold on_send_message, required.
    destruct (contactId d) as [x|]; [|done]. simpl in H.
    destruct (truthy x); [|done]. simpl in H.
    destruct (message d) as [m|]; [|done]. by rewrite H.
  - unfold on_friend_request, required.
    destruct (fr_receiver_id d) as [x|]; [|done].
    simpl in H. by destruct (truthy x).
  - unfold on_friend_request_response, required.
    destruct (rs_sender_id d) as [x|]; [|done].
    simpl in H. by destruct (truthy x).
  - done.
Qed.

(** C3.  A [send-message] event that names a recipient and has no message
    body is not dropped: the guard of line 188 dereferences the absent
    [message] and the handler raises a TypeError, on every store and for
    every caller. *)
Theorem C3_send_message_without_body_raises (c : Conn) (env : Env)
    (st : Store) :
  on c env (send_message message_without_body) st = Raised TypeError.
Proof. reflexivity. Qed.

(** ** The ledger over whole runs *)

Lemma connection_friendRequests c st :
  friendRequests (connection c st).1 = friendRequests st.
Proof. unfold connection. by destruct (truthy (userId c)). Qed.

(** The three ways an event can leave the ledger: as it was, with one pending
    record of the caller appended, or with one pending record addressed to
    the caller resolved in place. *)
Lemma ledger_change c env ev st st' out :
  on c env ev st = Done st' out →
  friendRequests st' = friendRequests st
  ∨ (∃ r, (pending_record (userId c) r ∉ friendRequests st)
          ∧ friendRequests st'
            = friendRequests st ++ [pending_record (userId c) r])
  ∨ (∃ i s acc,
       truthy s = true
       ∧ friendRequests st !! i = Some (pending_record s (userId c))
       ∧ friendRequests st'
         = <[i := resolved_record s (userId c) acc]> (friendRequests st)).
Proof.
  destruct ev as [d|d|d|d|d|d|]; simpl; intros H.
  - left. unfold on_create_group in H. destruct (required _); simplify_eq;
      [|done]. simpl. by rewrite ensure_userGroups_friendRequests.
  - left. unfold on_join_room in H. destruct (required _); simplify_eq;
      [|done]. destruct (groupRooms st !! _); [|done].
    apply join_group_friendRequests.
  - left. unfold on_group_message in H. repeat case_match; by simplify_eq.
  - left. unfold on_send_message in H. repeat case_match; by simplify_eq.
  - destruct (required (fr_receiver_id d)) as [r|] eqn:Hr.
    + destruct (decide (pending_count (userId c) r (friendRequests st)
                        = 0%nat)) as [H0|H0].
      * rewrite (friend_request_created _ _ _ _ Hr H0) in H. simplify_eq.
        right; left. exists r. split; [by apply pending_count_0|done].
      * rewrite (friend_request_already _ _ _ _ Hr H0) in H.
        simplify_eq. by left.
    + unfold on_friend_request in H. rewrite Hr in H. simplify_eq. by left.
  - destruct (required (rs_sender_id d)) as [s|] eqn:Hs.
    + destruct (decide (pending_count s (userId c) (friendRequests st)
                        = 0%nat)) as [H0|H0].
      * rewrite (response_not_found _ _ _ _ Hs H0) in H. simplify_eq.
        by left.
      * destruct (response_resolved _ _ _ _ Hs H0) as (i & _ & Hi & Heq).
        rewrite Heq in H. simplify_eq. right; right.
        apply required_Some in Hs as [_ Hs].
        by exists i, s, (rs_accepted d).
    + unfold on_friend_request_response in H. rewrite Hs in H.
      simplify_eq. by left.
  - left. unfold on_disconnect in H.
    destruct (truthy (userId c)); by simplify_eq.
Qed.

Lemma ledger_extends_refl l : ledger_extends l l.
Proof. split; [done|]. intros i r Hi. by exists r. Qed.

Lemma ledger_extends_trans l1 l2 l3 :
  ledger_extends l1 l2 → ledger_extends l2 l3 → ledger_extends l1 l3.
Proof.
  intros [Hlen1 H1] [Hlen2 H2]. split; [lia|].
  intros i r Hi. destruct (H1 i r Hi) as (r' & Hi' & Hs & Hr & Hst).
  destruct (H2 i r' Hi') as (r'' & Hi'' & Hs' & Hr' & Hst').
  exists r''. split_and!; [done|congruence|congruence|].
  intros Hres. rewrite <- (Hst Hres). apply Hst'. by rewrite (Hst Hres).
Qed.

Lemma step_ledger_extends st st' :
  step st st' → ledger_extends (friendRequests st) (friendRequests st').
Proof.
  intros [c|c env ev st'' out H].
  - rewrite connection_friendRequests. apply ledger_extends_refl.
  - destruct (ledger_change _ _ _ _ _ _ H)
      as [->|[(r & _ & ->)|(i & s & acc & _ & Hi & ->)]].
    + apply ledger_extends_refl.
    + split; [rewrite length_app; lia|]. intros j q Hj. exists q.
      split; [|done]. by apply lookup_app_l_Some.
    + split; [by rewrite length_insert|]. intros j q Hj.
      destruct (decide (i = j)) as [<-|Hne].
      * rewrite Hi in Hj. simplify_eq.
        exists (resolved_record s (userId c) acc).
        split; [|done]. apply list_lookup_insert_eq.
        by eapply lookup_lt_Some.
      * exists q. split; [|done]. by rewrite list_lookup_insert_ne.
Qed.

(** X1.  On every run, for every ordered pair (sender, receiver) the ledger
    holds at most one record with status pending. *)
Theorem X1_one_pending_record_per_pair (st : Store) :
  reachable st →
  ∀ s r, (pending_count s r (friendRequests st) ≤ 1)%nat.
Proof. apply reachable_ledger_unique. Qed.

Lemma X1_one_pending_record_per_pair_witness :
  reachable alice_asked_bob
  ∧ (pending_count "alice" "bob" (friendRequests alice_asked_bob) ≤ 1)%nat.
Proof.
  split; [exact alice_asked_bob_reachable|].
  apply (X1_one_pending_record_per_pair alice_asked_bob
           alice_asked_bob_reachable).
Defined.

(** X2.  The ledger is a history: along any run no record is deleted or
    moved, the sender and the receiver of a record never change, and a
    record that is accepted or rejected keeps that status for good. *)
Theorem X2_ledger_history_is_kept (st st' : Store) :
  rtc step st st' →
  ledger_extends (friendRequests st) (friendRequests st').
Proof.
  intros H. induction H as [st|st st1 st' Hstep _ IH].
  - apply ledger_extends_refl.
  - eapply ledger_extends_trans; [|exact IH]. by apply step_ledger_extends.
Qed.

Lemma X2_ledger_history_is_kept_witness :
  rtc step alice_asked_bob bob_rejected_alice
  ∧ ledger_extends (friendRequests alice_asked_bob)
                   (friendRequests bob_rejected_alice).
Proof.
  assert (rtc step alice_asked_bob bob_rejected_alice) as Hrun.
  { apply rtc_once.
    eapply (step_on _ bob1 env1 (friend_request_response bob_says_no)).
    reflexivity. }
  split; [exact Hrun|].
  apply (X2_ledger_history_is_kept _ _ Hrun).
Defined.

(** X3.  Only the addressee resolves a request: a [friend_request_response]
    keeps the length of the ledger and leaves every record as it is, except
    at most one pending record whose receiver is the responder and whose
    sender is the [sender_id] of the payload. *)
Theorem X3_response_touches_only_own_request (c : Conn) (env : Env)
    (d : FriendResponseData) (st st' : Store) (out : list Effect) :
  on c env (friend_request_response d) st = Done st' out →
  length (friendRequests st') = length (friendRequests st)
  ∧ ∀ i r, friendRequests st !! i = Some r →
      receiver_id r ≠ userId c ∨ Some (sender_id r) ≠ rs_sender_id d
      ∨ status r ≠ Pending →
      friendRequests st' !! i = Some r.
Proof.
  simpl. intros H. destruct (required (rs_sender_id d)) as [s|] eqn:Hs.
  - destruct (decide (pending_count s (userId c) (friendRequests st) = 0%nat))
      as [H0|H0].
    + rewrite (response_not_found _ _ _ _ Hs H0) in H. by simplify_eq.
    + destruct (response_resolved _ _ _ _ Hs H0) as (i & _ & Hi & Heq).
      rewrite Heq in H. simplify_eq. simpl.
      split; [apply length_insert|]. intros j r Hj Hother.
      destruct (decide (i = j)) as [<-|Hne];
        [|by rewrite list_lookup_insert_ne].
      rewrite Hi in Hj. simplify_eq. simpl in Hother.
      apply required_Some in Hs as [Hs _].
      destruct Hother as [?|[?|?]]; congruence.
  - unfold on_friend_request_response in H. rewrite Hs in H. by simplify_eq.
Qed.

Lemma X3_response_touches_only_own_request_witness :
  on alice2 env1 (friend_request_response bob_says_no) alice_asked_bob
  = Done alice_asked_bob
      [Emit (ToSocket 2) "friend_request_response_sent"
         (FriendResponseNotFound "alice" "not_found" None)]
  ∧ friendRequests alice_asked_bob !! 0%nat
    = Some (pending_record "alice" "bob").
Proof.
  assert (on alice2 env1 (friend_request_response bob_says_no) alice_asked_bob
          = Done alice_asked_bob
              [Emit (ToSocket 2) "friend_request_response_sent"
                 (FriendResponseNotFound "alice" "not_found" None)]) as Hon
    by reflexivity.
  split; [exact Hon|].
  destruct (X3_response_touches_only_own_request _ _ _ _ _ _ Hon) as [_ Hkeep].
  apply (Hkeep 0%nat (pending_record "alice" "bob") eq_refl).
  left. simpl. discriminate.
Defined.

(** ** Friend request workflows *)

Lemma not_pending_resolved s r acc : pending_record s r ≠ resolved_record s r acc.
Proof.
  unfold pending_record, resolved_record. intros H.
  injection H as H. by destruct acc as [[]|].
Qed.

(** X4.  The pending check is directional: with no pending record between
    two distinct identities [A] and [B], a request from [A] to [B] followed
    by a request from [B] to [A] is acknowledged 'sent' both times and leaves
    two pending records, one per direction. *)
Theorem X4_opposite_request_is_not_blocked (A B : string) (sA sB : SocketId)
    (env env' : Env) (tsA tsB : option string) (st : Store) :
  truthy A = true →
  truthy B = true →
  A ≠ B →
  pending_record A B ∉ friendRequests st →
  pending_record B A ∉ friendRequests st →
  let cA := {| socket := sA; token := A |} in
  let cB := {| socket := sB; token := B |} in
  ∃ st1 out1 st2,
    on cA env (friend_request {| fr_receiver_id := Some B;
                                 fr_timestamp := tsA |}) st
    = Done st1 out1
    ∧ on cB env' (friend_request {| fr_receiver_id := Some A;
                                    fr_timestamp := tsB |}) st1
      = Done st2
          (match lookup_session st A with
           | Some socketA =>
               [Emit (ToSocket socketA) "friend_request"
                  (FriendRequestFrom B tsB)]
           | None => []
           end ++
           [Emit (ToSocket sB) "friend_request_sent"
              (FriendRequestAck A "sent" tsB)])
    ∧ friendRequests st2
      = friendRequests st ++ [pending_record A B; pending_record B A].
Proof.
  intros HA HB Hne HAB HBA cA cB.
  apply pending_count_0 in HAB. apply pending_count_0 in HBA.
  set (st1 := set_friendRequests
                (friendRequests st ++ [pending_record A B]) st).
  assert (pending_count (userId cB) A (friendRequests st1) = 0%nat) as H0.
  { unfold pending_count, pending_record in *. simpl.
    rewrite count_push, is_pending_new, HBA.
    rewrite bool_decide_eq_false_2; [done|]. by intros [? ?]. }
  exists st1. eexists. eexists.
  split; [|split].
  - simpl.
    apply (friend_request_created cA
             {| fr_receiver_id := Some B; fr_timestamp := tsA |}
             st B (required_truthy B HB) HAB).
  - simpl.
    apply (friend_request_created cB
             {| fr_receiver_id := Some A; fr_timestamp := tsB |}
             st1 A (required_truthy A HA) H0).
  - simpl. by rewrite <- app_assoc.
Qed.

Lemma X4_opposite_request_is_not_blocked_witness :
  truthy "alice" = true ∧ truthy "bob" = true ∧ "alice" ≠ "bob"
  ∧ (pending_record "alice" "bob" ∉ friendRequests init)
  ∧ (pending_record "bob" "alice" ∉ friendRequests init)
  ∧ ∃ st1 out1 st2,
      on alice1 env1 (friend_request request_to_bob) init = Done st1 out1
      ∧ on bob1 env2
           (friend_request {| fr_receiver_id := Some "alice";
                              fr_timestamp := None |}) st1
        = Done st2 [Emit (ToSocket 3) "friend_request_sent"
                      (FriendRequestAck "alice" "sent" None)]
      ∧ friendRequests st2
        = [pending_record "alice" "bob"; pending_record "bob" "alice"].
Proof.
  assert ("alice" ≠ "bob") as Hne by discriminate.
  assert (pending_record "alice" "bob" ∉ friendRequests init) as H1
    by apply not_elem_of_nil.
  assert (pending_record "bob" "alice" ∉ friendRequests init) as H2
    by apply not_elem_of_nil.
  split; [reflexivity|]. split; [reflexivity|]. split; [exact Hne|].
  split; [exact H1|]. split; [exact H2|].
  apply (X4_opposite_request_is_not_blocked "alice" "bob" 1 3 env1 env2
           (Some "t1") None init eq_refl eq_refl Hne H1 H2).
Defined.

(** X5.  Only a pending record blocks a request: after the receiver has
    answered (accepted or rejected), the same sender can ask the same
    receiver again; the new request is acknowledged 'sent' and the ledger
    holds the resolved record followed by a new pending one. *)
Theorem X5_request_again_after_resolution (sender receiver : string)
    (s1 s2 : SocketId) (env : Env) (acc : option bool)
    (ts1 ts2 ts3 : option string) (st : Store) :
  truthy sender = true →
  truthy receiver = true →
  pending_record sender receiver ∉ friendRequests st →
  let cs := {| socket := s1; token := sender |} in
  let cr := {| socket := s2; token := receiver |} in
  let ask ts := friend_request {| fr_receiver_id := Some receiver;
                                  fr_timestamp := ts |} in
  ∃ st1 out1 st2 out2 st3 out3,
    on cs env (ask ts1) st = Done st1 out1
    ∧ on cr env (friend_request_response
                   {| rs_sender_id := Some sender; rs_accepted := acc;
                      rs_timestamp := ts2 |}) st1 = Done st2 out2
    ∧ on cs env (ask ts3) st2 = Done st3 out3
    ∧ Emit (ToSocket s1) "friend_request_sent"
           (FriendRequestAck receiver "sent" ts3) ∈ out3
    ∧ friendRequests st3
      = friendRequests st ++ [resolved_record sender receiver acc;
                              pending_record sender receiver].
Proof.
  intros Hs Hr Hnone cs cr ask.
  pose proof Hnone as Hcount. apply pending_count_0 in Hcount.
  set (l := friendRequests st) in *.
  set (st1 := set_friendRequests (l ++ [pending_record sender receiver]) st).
  assert (pending_count sender (userId cr) (friendRequests st1) ≠ 0%nat)
    as Hn0.
  { unfold pending_count, pending_record in *. simpl.
    rewrite count_push, is_pending_new, bool_decide_eq_true_2 by done. lia. }
  destruct (response_resolved cr
              {| rs_sender_id := Some sender; rs_accepted := acc;
                 rs_timestamp := ts2 |} st1 sender
              (required_truthy sender Hs) Hn0) as (i & _ & Hi & Hon2).
  assert (i = length l) as ->.
  { simpl in Hi. destruct (decide (i < length l)%nat) as [Hlt|Hge].
    - rewrite lookup_app_l in Hi by done. exfalso. apply Hnone.
      apply list_elem_of_lookup. by exists i.
    - apply lookup_lt_Some in Hi. rewrite length_app in Hi. simpl in Hi.
      lia. }
  assert (<[length l := resolved_record sender receiver acc]>
            (l ++ [pending_record sender receiver])
          = l ++ [resolved_record sender receiver acc]) as Hins.
  { rewrite insert_app_r_alt by lia. by rewrite Nat.sub_diag. }
  simpl in Hon2. change (userId cr) with receiver in Hon2.
  fold (resolved_record sender receiver acc) in Hon2. rewrite Hins in Hon2.
  set (st2 := set_friendRequests
                (l ++ [resolved_record sender receiver acc]) st1) in *.
  assert (pending_count (userId cs) receiver (friendRequests st2) = 0%nat)
    as H0.
  { apply pending_count_0. simpl. change (userId cs) with sender.
    rewrite elem_of_app, list_elem_of_singleton.
    intros [?|Heq]; [done|]. by apply not_pending_resolved in Heq. }
  exists st1. eexists. exists st2. eexists. eexists. eexists.
  split_and!.
  - simpl.
    apply (friend_request_created cs
             {| fr_receiver_id := Some receiver; fr_timestamp := ts1 |}
             st receiver (required_truthy receiver Hr) Hcount).
  - exact Hon2.
  - simpl.
    apply (friend_request_created cs
             {| fr_receiver_id := Some receiver; fr_timestamp := ts3 |}
             st2 receiver (required_truthy receiver Hr) H0).
  - apply elem_of_app. right. apply list_elem_of_here.
  - simpl. by rewrite <- app_assoc.
Qed.

Lemma X5_request_again_after_resolution_witness :
  truthy "alice" = true ∧ truthy "bob" = true
  ∧ (pending_record "alice" "bob" ∉ friendRequests init)
  ∧ ∃ st1 out1 st2 out2 st3 out3,
      on alice1 env1 (friend_request request_to_bob) init = Done st1 out1
      ∧ on bob1 env1 (friend_request_response bob_says_no) st1
        = Done st2 out2
      ∧ on alice1 env1 (friend_request request_to_bob) st2 = Done st3 out3
      ∧ Emit (ToSocket 1) "friend_request_sent"
             (FriendRequestAck "bob" "sent" (Some "t1")) ∈ out3
      ∧ friendRequests st3
        = [resolved_record "alice" "bob" (Some false);
           pending_record "alice" "bob"].
Proof.
  assert (pending_record "alice" "bob" ∉ friendRequests init) as H1
    by apply not_elem_of_nil.
  split; [reflexivity|]. split; [reflexivity|]. split; [exact H1|].
  apply (X5_request_again_after_resolution "alice" "bob" 1 3 env1
           (Some false) (Some "t1") None (Some "t1") init
           eq_refl eq_refl H1).
Defined.

(** ** Direct messages *)

(** X6.  Direct messages follow the session registry: once an identity has
    connected, a [send-message] to it with a content or a file, from any
    caller, changes no store and delivers the message object as received to
    the socket of that connection and to nobody else; after the disconnect
    of that identity the same event delivers nothing and reports nothing to
    the caller. *)
Theorem X6_direct_message_follows_registry (c sc : Conn) (env : Env)
    (m : MessageBody) (anon : option bool) (st : Store) :
  truthy (userId c) = true →
  truthy_opt (content m) || truthy_opt (fileUrl m) = true →
  let d := {| contactId := Some (userId c); message := Some m;
              is_anonymous := anon |} in
  let st1 := (connection c st).1 in
  on sc env (send_message d) st1
  = Done st1 [Emit (ToSocket (socket c)) "receive-message" (DirectMessage m)]
  ∧ ∃ st2 out,
      on c env disconnect st1 = Done st2 out
      ∧ on sc env (send_message d) st2 = Done st2 [].
Proof.
  intros Hu Hm d st1.
  assert (negb (truthy_opt (content m)) && negb (truthy_opt (fileUrl m))
          = false) as Hguard.
  { destruct (truthy_opt (content m)), (truthy_opt (fileUrl m)); done. }
  destruct (connection_registered c st Hu) as [Hreg _]. fold st1 in Hreg.
  destruct (disconnect_unregistered c st1 Hu) as (st2 & out & Hd & Hgone & _).
  split.
  - simpl. unfold on_send_message. simpl. rewrite Hu, Hguard, Hreg.
    by rewrite lookup_insert_eq.
  - exists st2, out. split; [exact Hd|].
    simpl. unfold on_send_message. simpl. rewrite Hu, Hguard, Hgone.
    by rewrite lookup_delete_eq.
Qed.

Lemma X6_direct_message_follows_registry_witness :
  truthy (userId bob1) = true
  ∧ truthy_opt (Some "hi") || truthy_opt None = true
  ∧ on alice1 env1
       (send_message
          {| contactId := Some "bob";
             message := Some {| content := Some "hi"; fileUrl := None |};
             is_anonymous := None |}) (connection bob1 init).1
    = Done (connection bob1 init).1
        [Emit (ToSocket 3) "receive-message"
           (DirectMessage {| content := Some "hi"; fileUrl := None |})].
Proof.
  split; [reflexivity|]. split; [reflexivity|].
  apply (X6_direct_message_follows_registry bob1 alice1 env1
           {| content := Some "hi"; fileUrl := None |} None init
           eq_refl eq_refl).
Defined.

(** ** Group lists as lists *)

Lemma groupsOf_insert u l st v :
  groupsOf (set_userGroups (<[u := l]> (userGroups st)) st) v
  = if decide (v = u) then l else groupsOf st v.
Proof.
  unfold groupsOf. simpl. case_decide as Hv.
  - subst. by rewrite lookup_insert_eq.
  - by rewrite lookup_insert_ne.
Qed.

Lemma create_group_lists c env d st name :
  required (cg_name d) = Some name →
  ∃ st', on c env (create_group d) st
         = Done st' [Join (socket c) (uuid env);
                     Emit (ToSocket (socket c)) "group_created"
                          (GroupCreated (uuid env) name)]
    ∧ groupRooms st'
      = <[uuid env := default [userId c] (cg_members d)]> (groupRooms st)
    ∧ userStatus st' = userStatus st
    ∧ ∀ u, groupsOf st' u
           = if decide (u = userId c) then groupsOf st u ++ [uuid env]
             else groupsOf st u.
Proof.
  intros Hname. simpl. unfold on_create_group. rewrite Hname.
  eexists. split; [done|]. split_and!.
  - simpl. by rewrite ensure_userGroups_groupRooms.
  - simpl. unfold ensure_userGroups. by case_match.
  - intros u. rewrite groupsOf_insert, !ensure_userGroups_groupsOf.
    by case_decide; subst.
Qed.

Lemma join_group_groupsOf c room members st u :
  groupsOf (join_group c room members st) u
  = if decide (u = userId c)
    then (if includes room (groupsOf st u) then groupsOf st u
          else groupsOf st u ++ [room])
    else groupsOf st u.
Proof.
  unfold join_group.
  set (st1 := if includes (userId c) members then st else _).
  assert (∀ v, groupsOf st1 v = groupsOf st v) as Hst1.
  { intros v. unfold st1. by case_match. }
  rewrite ensure_userGroups_groupsOf, Hst1.
  destruct (includes room (groupsOf st (userId c))) eqn:Hinc.
  - rewrite ensure_userGroups_groupsOf, Hst1.
    case_decide; subst; by rewrite ?Hinc.
  - rewrite groupsOf_insert, ensure_userGroups_groupsOf, Hst1.
    case_decide; subst; by rewrite ?Hinc.
Qed.

Lemma join_group_groupRooms c room members st :
  groupRooms (join_group c room members st)
  = if includes (userId c) members then groupRooms st
    else <[room := members ++ [userId c]]> (groupRooms st).
Proof.
  unfold join_group.
  repeat (case_match; simpl); by rewrite ensure_userGroups_groupRooms.
Qed.

Lemma join_group_userStatus c room members st :
  userStatus (join_group c room members st) = userStatus st.
Proof.
  unfold join_group, ensure_userGroups. repeat (case_match; simpl); done.
Qed.

Lemma connection_groups c st :
  groupRooms (connection c st).1 = groupRooms st
  ∧ userGroups (connection c st).1 = userGroups st.
Proof. unfold connection. by destruct (truthy (userId c)). Qed.

(** Only [create_group] and [join_room] write the two group maps. *)
Lemma groups_untouched c env ev st st' out :
  on c env ev st = Done st' out →
  match ev with
  | create_group _ | join_room _ => True
  | _ => groupRooms st' = groupRooms st ∧ userGroups st' = userGroups st
  end.
Proof.
  destruct ev as [d|d|d|d|d|d|]; simpl; intros H; [done|done|..].
  - unfold on_group_message in H. repeat case_match; by simplify_eq.
  - unfold on_send_message in H. repeat case_match; by simplify_eq.
  - unfold on_friend_request in H. repeat case_match; by simplify_eq.
  - unfold on_friend_request_response in H. repeat case_match; by simplify_eq.
  - unfold on_disconnect in H. destruct (truthy (userId c)); by simplify_eq.
Qed.

Lemma join_room_cases c env d st st' out :
  on c env (join_room d) st = Done st' out →
  st' = st
  ∨ ∃ room members, required (jr_room_id d) = Some room
                    ∧ groupRooms st !! room = Some members
                    ∧ st' = join_group c room members st.
Proof.
  simpl. unfold on_join_room. intros H.
  destruct (required (jr_room_id d)) as [room|] eqn:Hroom; simplify_eq;
    [|by left].
  destruct (groupRooms st !! room) as [members|] eqn:E; [|by left].
  right. by exists room, members.
Qed.

(** X7.  An identity that is already in the member list of a registered
    group (listed at creation) and joins the room is not added a second
    time: the member lists stay exactly as they are, the only effect is the
    room join of its socket, and the group is afterwards in its group list. *)
Theorem X7_listed_member_joins (c : Conn) (env : Env) (room : string)
    (members : list string) (st : Store) :
  truthy room = true →
  groupRooms st !! room = Some members →
  userId c ∈ members →
  ∃ st',
    on c env (join_room {| jr_room_id := Some room |}) st
    = Done st' [Join (socket c) room]
    ∧ groupRooms st' = groupRooms st
    ∧ room ∈ groupsOf st' (userId c)
    ∧ (∀ G, G ∈ groupsOf st' (userId c) → G ∈ groupsOf st (userId c) ∨ G = room)
    ∧ (∀ v, v ≠ userId c → groupsOf st' v = groupsOf st v).
Proof.
  intros Hroom Hreg Hin. simpl. unfold on_join_room. simpl.
  rewrite Hroom, Hreg.
  eexists. split; [done|]. split_and!.
  - rewrite join_group_groupRooms.
    apply includes_true in Hin. by rewrite Hin.
  - apply join_group_groups. auto.
  - intros G HG. apply join_group_groups in HG. naive_solver.
  - intros v Hv. rewrite join_group_groupsOf. by case_decide.
Qed.

Lemma X7_listed_member_joins_witness :
  truthy "g-1" = true
  ∧ groupRooms alice_listed_bob !! "g-1" = Some ["bob"]
  ∧ userId bob1 ∈ ["bob"]
  ∧ ∃ st',
      on bob1 env2 (join_room {| jr_room_id := Some "g-1" |}) alice_listed_bob
      = Done st' [Join 3 "g-1"]
      ∧ groupRooms st' = groupRooms alice_listed_bob
      ∧ "g-1" ∈ groupsOf st' "bob".
Proof.
  assert (userId bob1 ∈ ["bob"]) as Hin by apply list_elem_of_here.
  split; [reflexivity|]. split; [reflexivity|]. split; [exact Hin|].
  destruct (X7_listed_member_joins bob1 env2 "g-1" ["bob"] alice_listed_bob
              eq_refl eq_refl Hin) as (st' & Hon & Hrooms & Hg & _).
  exists st'. split; [exact Hon|]. split; [exact Hrooms|exact Hg].
Defined.

(** X8.  [join_room] writes the caller's own membership only: it never
    registers or removes a group, a member list is either unchanged or has
    the caller appended, the group list of every other identity is
    unchanged, and on a room id that is not a registered group the store is
    returned as it is. *)
Theorem X8_join_room_touches_only_the_caller (c : Conn) (env : Env)
    (d : JoinRoomData) (st st' : Store) (out : list Effect) :
  on c env (join_room d) st = Done st' out →
  dom (groupRooms st') = dom (groupRooms st)
  ∧ (∀ G, membersOf st' G = membersOf st G
          ∨ membersOf st' G = membersOf st G ++ [userId c])
  ∧ (∀ v, v ≠ userId c → groupsOf st' v = groupsOf st v)
  ∧ (∀ room, required (jr_room_id d) = Some room →
             groupRooms st !! room = None → st' = st).
Proof.
  intros H. pose proof H as Hcases. apply join_room_cases in Hcases.
  destruct Hcases as [->|(room & members & Hroom & Hreg & ->)].
  { split_and!; auto. }
  split_and!.
  - rewrite join_group_groupRooms. case_match; [done|].
    rewrite dom_insert_L. apply elem_of_dom_2 in Hreg. set_solver.
  - intros G. unfold membersOf. rewrite join_group_groupRooms.
    case_match; [by left|].
    destruct (decide (room = G)) as [<-|Hne].
    + right. by rewrite lookup_insert_eq, Hreg.
    + left. by rewrite lookup_insert_ne.
  - intros v Hv. rewrite join_group_groupsOf. by case_decide.
  - intros room' Hroom' Hnone. congruence.
Qed.

Lemma X8_join_room_touches_only_the_caller_witness :
  on bob1 env2 (join_room {| jr_room_id := Some "g-1" |}) alice_listed_bob
  = Done (join_group bob1 "g-1" ["bob"] alice_listed_bob) [Join 3 "g-1"]
  ∧ dom (groupRooms (join_group bob1 "g-1" ["bob"] alice_listed_bob))
    = dom (groupRooms alice_listed_bob)
  ∧ groupsOf (join_group bob1 "g-1" ["bob"] alice_listed_bob) "alice"
    = groupsOf alice_listed_bob "alice".
Proof.
  assert (on bob1 env2 (join_room {| jr_room_id := Some "g-1" |})
            alice_listed_bob
          = Done (join_group bob1 "g-1" ["bob"] alice_listed_bob)
              [Join 3 "g-1"]) as Hon by reflexivity.
  split; [exact Hon|].
  destruct (X8_join_room_touches_only_the_caller _ _ _ _ _ _ Hon)
    as (Hdom & _ & Hothers & _).
  split; [exact Hdom|]. apply Hothers. discriminate.
Defined.

(** ** Group membership over whole runs *)

Lemma step_status_dom st st' :
  step st st' → dom (userStatus st) ⊆ dom (userStatus st').
Proof.
  intros [c|c env ev st'' out H].
  - unfold connection. destruct (truthy (userId c)); [|done]. simpl.
    apply dom_insert_subseteq.
  - assert (ev = disconnect ∨ ev ≠ disconnect) as [->|Hev]
      by (destruct ev; auto).
    + simpl in H. unfold on_disconnect in H.
      destruct (truthy (userId c)); simplify_eq; [|done]. simpl.
      apply dom_insert_subseteq.
    + destruct (registry_untouched _ _ _ _ _ _ Hev H) as [_ ->]. done.
Qed.

Lemma step_groups_grow st st' :
  step st st' →
  dom (groupRooms st) ⊆ dom (groupRooms st')
  ∧ ∀ u, groupsOf st u `prefix_of` groupsOf st' u.
Proof.
  intros [c|c env ev st'' out H].
  - destruct (connection_groups c st) as [Hr Hg].
    unfold groupsOf. by rewrite Hr, Hg.
  - pose proof (groups_untouched _ _ _ _ _ _ H) as Hsame.
    destruct ev as [d|d|d|d|d|d|].
    3-7: destruct Hsame as [Hr Hg]; unfold groupsOf; by rewrite Hr, Hg.
    + destruct (required (cg_name d)) as [name|] eqn:Hname.
      * destruct (create_group_lists c env d st name Hname)
          as (st1 & Hon & Hrooms & _ & Hlists).
        rewrite Hon in H. simplify_eq. rewrite Hrooms.
        split; [apply dom_insert_subseteq|].
        intros u. rewrite Hlists. case_decide; [|done].
        by apply prefix_app_r.
      * rewrite (create_group_dropped _ _ _ _ Hname) in H. by simplify_eq.
    + apply join_room_cases in H
        as [->|(room & members & Hroom & Hreg & ->)]; [done|].
      rewrite join_group_groupRooms. split.
      * case_match; [done|]. apply dom_insert_subseteq.
      * intros u. rewrite join_group_groupsOf.
        repeat case_match; try done. by apply prefix_app_r.
Qed.

(** X9.  Group membership only grows: along any run a registered group
    stays registered, the group list of an identity is only ever extended at
    its end (in particular [disconnect] removes nobody from a group), and an
    identity that has a presence status keeps having one. *)
Theorem X9_membership_only_grows (st st' : Store) :
  rtc step st st' →
  dom (groupRooms st) ⊆ dom (groupRooms st')
  ∧ (∀ u, groupsOf st u `prefix_of` groupsOf st' u)
  ∧ dom (userStatus st) ⊆ dom (userStatus st').
Proof.
  intros H. induction H as [st|st st1 st' Hstep _ (IH1 & IH2 & IH3)].
  - done.
  - destruct (step_groups_grow _ _ Hstep) as [H1 H2].
    pose proof (step_status_dom _ _ Hstep) as H3.
    split_and!.
    + set_solver.
    + intros u. etrans; [apply H2|apply IH2].
    + set_solver.
Qed.

Lemma X9_membership_only_grows_witness :
  rtc step alice_listed_bob
    (join_group bob1 "g-1" ["bob"] alice_listed_bob)
  ∧ groupsOf alice_listed_bob "alice"
    `prefix_of` groupsOf (join_group bob1 "g-1" ["bob"] alice_listed_bob)
                         "alice".
Proof.
  assert (rtc step alice_listed_bob
            (join_group bob1 "g-1" ["bob"] alice_listed_bob)) as Hrun.
  { apply rtc_once.
    eapply (step_on _ bob1 env2 (join_room {| jr_room_id := Some "g-1" |})).
    reflexivity. }
  split; [exact Hrun|].
  destruct (X9_membership_only_grows _ _ Hrun) as (_ & Hlists & _).
  apply Hlists.
Defined.

(** ** Runs with fresh group ids *)

Lemma index_wf_init : index_wf init.
Proof.
  intros u. unfold groupsOf. simpl. rewrite lookup_empty. simpl.
  split; [constructor|]. intros g Hg. by apply elem_of_nil in Hg.
Qed.

Lemma fresh_step_index_wf st st' :
  fresh_step st st' → index_wf st → index_wf st'.
Proof.
  intros [c|c env ev st'' out Hfresh H] Hwf.
  - destruct (connection_groups c st) as [Hr Hg].
    intros u. unfold groupsOf. rewrite Hr, Hg. apply Hwf.
  - pose proof (groups_untouched _ _ _ _ _ _ H) as Hsame.
    destruct ev as [d|d|d|d|d|d|].
    3-7: destruct Hsame as [Hr Hg]; intros u; unfold groupsOf;
         rewrite Hr, Hg; apply Hwf.
    + destruct (required (cg_name d)) as [name|] eqn:Hname.
      * destruct (create_group_lists c env d st name Hname)
          as (st1 & Hon & Hrooms & _ & Hlists).
        rewrite Hon in H. simplify_eq. simpl in Hfresh.
        intros u. destruct (Hwf u) as [Hnd Hreg]. rewrite Hlists, Hrooms.
        case_decide as Hu.
        -- split.
           ++ apply NoDup_app. split; [done|]. split; [|apply NoDup_singleton].
              intros g Hg Hnew. apply list_elem_of_singleton in Hnew. subst g.
              destruct (Hreg _ Hg) as [? ?]. congruence.
           ++ intros g Hg. apply elem_of_app in Hg as [Hg|Hg].
              ** destruct (decide (uuid env = g)) as [<-|Hne];
                   [by rewrite lookup_insert_eq|].
                 rewrite lookup_insert_ne by done. by apply Hreg.
              ** apply list_elem_of_singleton in Hg. subst g.
                 by rewrite lookup_insert_eq.
        -- split; [done|]. intros g Hg.
           destruct (decide (uuid env = g)) as [<-|Hne];
             [by rewrite lookup_insert_eq|].
           rewrite lookup_insert_ne by done. by apply Hreg.
      * rewrite (create_group_dropped _ _ _ _ Hname) in H. by simplify_eq.
    + apply join_room_cases in H
        as [->|(room & members & Hroom & Hroomreg & ->)]; [done|].
      intros u. destruct (Hwf u) as [Hnd Hreg].
      rewrite join_group_groupsOf, join_group_groupRooms.
      assert (∀ g, is_Some (groupRooms st !! g) →
                   is_Some ((if includes (userId c) members
                             then groupRooms st
                             else <[room := members ++ [userId c]]>
                                    (groupRooms st)) !! g)) as Hkeep.
      { intros g Hg. case_match; [done|].
        destruct (decide (room = g)) as [<-|Hne];
          [by rewrite lookup_insert_eq|]. by rewrite lookup_insert_ne. }
      case_decide as Hu; [|split; [done|]; intros g Hg; by apply Hkeep, Hreg].
      destruct (includes room (groupsOf st u)) eqn:Hinc;
        [split; [done|]; intros g Hg; by apply Hkeep, Hreg|].
      apply includes_false in Hinc. split.
      * apply NoDup_app. split; [done|]. split; [|apply NoDup_singleton].
        intros g Hg Hnew. apply list_elem_of_singleton in Hnew. by subst g.
      * intros g Hg. apply Hkeep. apply elem_of_app in Hg as [Hg|Hg].
        -- by apply Hreg.
        -- apply list_elem_of_singleton in Hg. subst g. by rewrite Hroomreg.
Qed.

Lemma fresh_run_index_wf st : rtc fresh_step init st → index_wf st.
Proof.
  intros H. apply (rtc_ind_r (R:=fresh_step) index_wf init); [| |exact H].
  - apply index_wf_init.
  - intros y z _ Hstep IH. by eapply fresh_step_index_wf.
Qed.

(** X10.  When [uuidv4()] never returns the id of an existing group, on
    every run each group list is free of duplicates and names registered
    groups only. *)
Theorem X10_group_lists_are_sets (st : Store) :
  rtc fresh_step init st →
  ∀ u, NoDup (groupsOf st u)
       ∧ ∀ g, g ∈ groupsOf st u → is_Some (groupRooms st !! g).
Proof. apply fresh_run_index_wf. Qed.

Lemma alice_listed_bob_fresh_run : rtc fresh_step init alice_listed_bob.
Proof.
  eapply rtc_l; [apply (fresh_connection init alice1)|].
  apply rtc_once.
  eapply (fresh_on _ alice1 env1 (create_group team_with_bob)).
  - reflexivity.
  - reflexivity.
Qed.

Lemma X10_group_lists_are_sets_witness :
  rtc fresh_step init alice_listed_bob
  ∧ NoDup (groupsOf alice_listed_bob "alice").
Proof.
  split; [exact alice_listed_bob_fresh_run|].
  apply (X10_group_lists_are_sets alice_listed_bob alice_listed_bob_fresh_run).
Defined.

(** ** Presence notifications *)

Lemma notify_groups_map c s st :
  notify_groups c s st
  = map (member_status_event c s) (groupsOf st (userId c)).
Proof.
  unfold notify_groups, groupsOf.
  by destruct (userGroups st !! userId c).
Qed.

Lemma member_status_events_NoDup c s (gs : list string) :
  NoDup gs → NoDup (map (member_status_event c s) gs).
Proof.
  induction 1 as [|g gs Hg Hnd IH]; simpl; constructor; [|done].
  intros Hin. apply Hg. apply list_elem_of_In, in_map_iff in Hin
    as (g' & Heq & Hin). apply list_elem_of_In in Hin.
  unfold member_status_event in Heq. by simplify_eq.
Qed.

(** X11.  When group ids are fresh, the disconnect of an identity emits one
    offline [member-status] event per group of its group list, in list
    order and without repetition, each to the room of that group except the
    disconnecting socket; the group maps are not changed. *)
Theorem X11_disconnect_notifies_each_group_once (c : Conn) (env : Env)
    (st : Store) :
  rtc fresh_step init st →
  truthy (userId c) = true →
  ∃ st' out,
    on c env disconnect st = Done st' out
    ∧ out = map (member_status_event c Offline) (groupsOf st (userId c))
    ∧ NoDup out
    ∧ groupRooms st' = groupRooms st
    ∧ userGroups st' = userGroups st.
Proof.
  intros Hrun Hu. simpl. unfold on_disconnect. rewrite Hu.
  do 2 eexists. split; [done|].
  rewrite notify_groups_map. split; [done|]. split; [|done].
  apply member_status_events_NoDup.
  apply (fresh_run_index_wf st Hrun (userId c)).
Qed.

Lemma X11_disconnect_notifies_each_group_once_witness :
  rtc fresh_step init alice_listed_bob
  ∧ truthy (userId alice1) = true
  ∧ ∃ st' out,
      on alice1 env2 disconnect alice_listed_bob = Done st' out
      ∧ out = [member_status_event alice1 Offline "g-1"].
Proof.
  split; [exact alice_listed_bob_fresh_run|]. split; [reflexivity|].
  destruct (X11_disconnect_notifies_each_group_once alice1 env2
              alice_listed_bob alice_listed_bob_fresh_run eq_refl)
    as (st' & out & Hon & Hout & _).
  exists st', out. split; [exact Hon|exact Hout].
Defined.

(** X12.  When group ids are fresh, a connection with a truthy token emits
    one online [member-status] event per group of the identity's group list
    (kept from its earlier sessions), without repetition, each to the room of
    that group except the new socket; a connection with a falsy token
    changes no store and emits nothing. *)
Theorem X12_connection_notifies_each_group_once (c : Conn) (st : Store) :
  rtc fresh_step init st →
  ((truthy (userId c) = true →
    (connection c st).2
    = map (member_status_event c Online) (groupsOf st (userId c))
    ∧ NoDup (connection c st).2)
   ∧ (truthy (userId c) = false → connection c st = (st, []))).
Proof.
  intros Hrun. split; intros Hu; unfold connection; rewrite Hu; [|done].
  simpl. rewrite notify_groups_map.
  change (groupsOf _ (userId c)) with (groupsOf st (userId c)).
  split; [done|]. apply member_status_events_NoDup.
  apply (fresh_run_index_wf st Hrun (userId c)).
Qed.

Lemma X12_connection_notifies_each_group_once_witness :
  rtc fresh_step init alice_listed_bob
  ∧ (connection alice2 alice_listed_bob).2
    = [member_status_event alice2 Online "g-1"].
Proof.
  split; [exact alice_listed_bob_fresh_run|].
  destruct (X12_connection_notifies_each_group_once alice2 alice_listed_bob
              alice_listed_bob_fresh_run) as [Hon _].
  destruct (Hon eq_refl) as [Hout _]. exact Hout.
Defined.

(** ** The registry over whole runs *)

Lemma step_registry_truthy st st' :
  step st st' →
  (∀ u, u ∈ dom (activeConnections st) ∨ u ∈ dom (userStatus st) →
        truthy u = true) →
  ∀ u, u ∈ dom (activeConnections st') ∨ u ∈ dom (userStatus st') →
       truthy u = true.
Proof.
  intros [c|c env ev st'' out H] Hinv u.
  - unfold connection. destruct (truthy (userId c)) eqn:Hu; [|apply Hinv].
    simpl. rewrite !dom_insert. intros Hdom.
    destruct (decide (u = userId c)) as [->|Hne]; [done|].
    apply Hinv. set_solver.
  - assert (ev = disconnect ∨ ev ≠ disconnect) as [->|Hev]
      by (destruct ev; auto).
    + simpl in H. unfold on_disconnect in H.
      destruct (truthy (userId c)) eqn:Hu; simplify_eq; [|apply Hinv].
      simpl. rewrite dom_insert, dom_delete. intros Hdom.
      destruct (decide (u = userId c)) as [->|Hne]; [done|].
      apply Hinv. set_solver.
    + destruct (registry_untouched _ _ _ _ _ _ Hev H) as [-> ->].
      apply Hinv.
Qed.

(** X13.  On every run the session registry and the status map hold
    identities only: a falsy token (absent or empty) never gets a registry
    entry or a presence status, whatever events its socket sends. *)
Theorem X13_registry_holds_identities_only (st : Store) :
  reachable st →
  ∀ u, u ∈ dom (activeConnections st) ∨ u ∈ dom (userStatus st) →
       truthy u = true.
Proof.
  intros H.
  apply (rtc_ind_r (R:=step)
           (λ s, ∀ u, u ∈ dom (activeConnections s) ∨ u ∈ dom (userStatus s)
                      → truthy u = true) init); [| |exact H].
  - intros u. simpl. rewrite !dom_empty. set_solver.
  - intros y z _ Hstep IH. by eapply step_registry_truthy.
Qed.

Lemma X13_registry_holds_identities_only_witness :
  reachable alice_asked_bob
  ∧ (∀ u, u ∈ dom (activeConnections alice_asked_bob)
          ∨ u ∈ dom (userStatus alice_asked_bob) → truthy u = true).
Proof.
  split; [exact alice_asked_bob_reachable|].
  apply (X13_registry_holds_identities_only alice_asked_bob
           alice_asked_bob_reachable).
Defined.

(** X16.  Disconnect and reconnect is a round trip: when the registry holds
    the socket of a connection and the identity is online, the disconnect
    event of that connection followed by a new connection of the same socket
    and token gives back the store as it was. *)
Theorem X16_reconnect_restores_the_store (c : Conn) (env : Env) (st : Store) :
  truthy (userId c) = true →
  lookup_session st (userId c) = Some (socket c) →
  statusOf st (userId c) = Some Online →
  ∃ st1 out, on c env disconnect st = Done st1 out
             ∧ lookup_session st1 (userId c) = None
             ∧ (connection c st1).1 = st.
Proof.
  intros Hu Hreg Hon. simpl. unfold on_disconnect. rewrite Hu.
  do 2 eexists. split; [done|]. split.
  - unfold lookup_session. simpl. apply lookup_delete_eq.
  - unfold connection. rewrite Hu. simpl.
    unfold lookup_session, statusOf in *.
    rewrite insert_delete_eq, insert_insert_eq.
    rewrite (insert_id _ _ _ Hreg), (insert_id _ _ _ Hon).
    by destruct st.
Qed.

Lemma X16_reconnect_restores_the_store_witness :
  truthy (userId alice1) = true
  ∧ lookup_session alice_asked_bob (userId alice1) = Some (socket alice1)
  ∧ statusOf alice_asked_bob (userId alice1) = Some Online
  ∧ ∃ st1 out, on alice1 env2 disconnect alice_asked_bob = Done st1 out
               ∧ lookup_session st1 (userId alice1) = None
               ∧ (connection alice1 st1).1 = alice_asked_bob.
Proof.
  split; [reflexivity|]. split; [reflexivity|]. split; [reflexivity|].
  apply (X16_reconnect_restores_the_store alice1 env2 alice_asked_bob
           eq_refl eq_refl eq_refl).
Defined.

(** ** Where emissions go *)

(** Splits a membership in a literal list of effects into its cases. *)
Ltac elem_cases H :=
  repeat first
    [ apply elem_of_nil in H; destruct H
    | apply elem_of_app in H; destruct H as [H|H]
    | apply elem_of_cons in H; destruct H as [H|H]; [simplify_eq|] ].

Lemma notify_groups_no_socket c s st t name p :
  Emit (ToSocket t) name p ∉ notify_groups c s st.
Proof.
  rewrite notify_groups_map. intros Hin.
  apply list_elem_of_In, in_map_iff in Hin as (g & Heq & _).
  unfold member_status_event in Heq. discriminate.
Qed.

(** X14.  A handler emits to an individual socket only when that socket is
    the caller's own or is the socket registered, at the time of the event,
    for the identity the payload names (the contact of a direct message, the
    receiver of a friend request, the sender a response answers). *)
Theorem X14_direct_emissions_reach_caller_or_addressee (c : Conn) (env : Env)
    (ev : Inbound) (st st' : Store) (out : list Effect) :
  on c env ev st = Done st' out →
  ∀ s name p, Emit (ToSocket s) name p ∈ out →
    s = socket c
    ∨ ∃ u, addressee ev = Some u ∧ lookup_session st u = Some s.
Proof.
  intros H s name p Hin.
  destruct ev as [d|d|d|d|d|d|]; simpl in H; simpl.
  - unfold on_create_group in H. destruct (required _); simplify_eq;
      elem_cases Hin. by left.
  - unfold on_join_room in H. destruct (required _); simplify_eq;
      elem_cases Hin.
  - unfold on_group_message in H. repeat case_match; simplify_eq;
      elem_cases Hin.
  - unfold on_send_message in H.
    destruct (required (contactId d)) as [contact|] eqn:Hc;
      [|simplify_eq; elem_cases Hin].
    apply required_Some in Hc as [Hc _].
    repeat case_match; simplify_eq; elem_cases Hin.
    right. by exists contact.
  - destruct (required (fr_receiver_id d)) as [r|] eqn:Hr.
    + destruct (decide (pending_count (userId c) r (friendRequests st)
                        = 0%nat)) as [H0|H0].
      * rewrite (friend_request_created _ _ _ _ Hr H0) in H. simplify_eq.
        apply required_Some in Hr as [Hr _].
        destruct (lookup_session st r) as [t|] eqn:Ht; elem_cases Hin;
          [right; by exists r|by left..].
      * rewrite (friend_request_already _ _ _ _ Hr H0) in H. simplify_eq.
        elem_cases Hin. by left.
    + unfold on_friend_request in H. rewrite Hr in H. simplify_eq.
      elem_cases Hin.
  - destruct (required (rs_sender_id d)) as [sd|] eqn:Hs.
    + destruct (decide (pending_count sd (userId c) (friendRequests st)
                        = 0%nat)) as [H0|H0].
      * rewrite (response_not_found _ _ _ _ Hs H0) in H. simplify_eq.
        elem_cases Hin. by left.
      * destruct (response_resolved _ _ _ _ Hs H0) as (i & _ & _ & Heq).
        rewrite Heq in H. simplify_eq.
        apply required_Some in Hs as [Hs _].
        destruct (lookup_session st sd) as [t|] eqn:Ht; elem_cases Hin;
          [right; by exists sd|by left..].
    + unfold on_friend_request_response in H. rewrite Hs in H. simplify_eq.
      elem_cases Hin.
  - unfold on_disconnect in H. destruct (truthy (userId c)); simplify_eq;
      [|elem_cases Hin].
    by apply notify_groups_no_socket in Hin.
Qed.

Lemma X14_direct_emissions_reach_caller_or_addressee_witness :
  on bob1 env1 (friend_request_response bob_says_no) alice_asked_bob
  = Done bob_rejected_alice
      [Emit (ToSocket 1) "friend_request_response"
         (FriendResponseFrom "bob" (Some false) None);
       Emit (ToSocket 3) "friend_request_response_sent"
         (FriendResponseAck "alice" (Some false) None)]
  ∧ (1 = socket bob1
     ∨ ∃ u, addressee (friend_request_response bob_says_no) = Some u
            ∧ lookup_session alice_asked_bob u = Some 1).
Proof.
  assert (on bob1 env1 (friend_request_response bob_says_no) alice_asked_bob
          = Done bob_rejected_alice
              [Emit (ToSocket 1) "friend_request_response"
                 (FriendResponseFrom "bob" (Some false) None);
               Emit (ToSocket 3) "friend_request_response_sent"
                 (FriendResponseAck "alice" (Some false) None)]) as Hon
    by reflexivity.
  split; [exact Hon|].
  apply (X14_direct_emissions_reach_caller_or_addressee _ _ _ _ _ _ Hon
           1 "friend_request_response"
           (FriendResponseFrom "bob" (Some false) None)).
  apply list_elem_of_here.
Defined.

(** ** Group messages *)

(** X15.  [group_message] has no membership check and never writes a store:
    with a group id and a content or a file, on any store (the id need not
    be a registered group, the caller need not be a member) it broadcasts
    exactly one [receive-message] to the room of that id, stamped with the
    caller's identity, the generated id and the time, with type "text" when
    the type is absent or empty; otherwise it emits nothing. *)
Theorem X15_group_message_is_an_unchecked_broadcast (c : Conn) (env : Env)
    (d : GroupMessageData) (st : Store) :
  ∃ out,
    on c env (group_message d) st = Done st out
    ∧ (∀ g, required (gm_group_id d) = Some g →
            truthy_opt (gm_content d) || truthy_opt (gm_fileUrl d) = true →
            out = [Emit (ToRoom g) "receive-message"
                     (GroupMessage (uuid env) g (userId c) (gm_content d)
                        (match gm_type d with
                         | Some t => if truthy t then t else "text"
                         | None => "text"
                         end)
                        (gm_fileUrl d) (now env))])
    ∧ (required (gm_group_id d) = None
       ∨ truthy_opt (gm_content d) || truthy_opt (gm_fileUrl d) = false →
       out = []).
Proof.
  simpl. unfold on_group_message.
  destruct (required (gm_group_id d)) as [g|] eqn:Hg.
  - destruct (truthy_opt (gm_content d)) eqn:Hc,
             (truthy_opt (gm_fileUrl d)) eqn:Hf; simpl;
      eexists; (split; [done|]); split.
    all: try (intros g' [= <-] _; f_equal; f_equal;
              destruct (gm_type d) as [t|]; simpl; [|done];
              by destruct (truthy t)).
    all: try (intros [?|?]; done).
    intros g' _ ?. done.
  - eexists. split; [done|]. split; [intros ? [=]|done].
Qed.

(** ** Requests from a socket without identity *)

Lemma step_keeps_anonymous_request st st' i r :
  step st st' →
  friendRequests st !! i = Some r →
  truthy (sender_id r) = false →
  friendRequests st' !! i = Some r.
Proof.
  intros [c|c env ev st'' out H] Hi Hanon.
  - by rewrite connection_friendRequests.
  - destruct (ledger_change _ _ _ _ _ _ H)
      as [->|[(q & _ & ->)|(j & s & acc & Hs & Hj & ->)]].
    + done.
    + by apply lookup_app_l_Some.
    + destruct (decide (j = i)) as [->|Hne];
        [|by rewrite list_lookup_insert_ne].
      rewrite Hi in Hj. simplify_eq. simpl in Hanon. congruence.
Qed.

(** X17.  [friend_request] does not require the caller to have an identity
    but [friend_request_response] requires a truthy [sender_id]: a record
    whose sender is falsy (a request sent from a socket with an absent or
    empty token) is never changed by any later event, so while pending it
    can never be accepted or rejected. *)
Theorem X17_request_without_identity_is_never_resolved (st st' : Store)
    (i : nat) (r : FriendRequest) :
  rtc step st st' →
  friendRequests st !! i = Some r →
  truthy (sender_id r) = false →
  friendRequests st' !! i = Some r.
Proof.
  intros H. induction H as [st|st st1 st' Hstep _ IH]; [done|].
  intros Hi Hanon. apply IH; [|done].
  by eapply step_keeps_anonymous_request.
Qed.

Lemma X17_request_without_identity_is_never_resolved_witness :
  rtc step
    (set_friendRequests [pending_record "" "bob"] init)
    (set_friendRequests [pending_record "" "bob"] (connection bob1 init).1)
  ∧ friendRequests (set_friendRequests [pending_record "" "bob"] init)
      !! 0%nat = Some (pending_record "" "bob")
  ∧ truthy (sender_id (pending_record "" "bob")) = false
  ∧ friendRequests
      (set_friendRequests [pending_record "" "bob"] (connection bob1 init).1)
      !! 0%nat = Some (pending_record "" "bob").
Proof.
  assert (rtc step
            (set_friendRequests [pending_record "" "bob"] init)
            (set_friendRequests [pending_record "" "bob"]
               (connection bob1 init).1)) as Hrun.
  { eapply rtc_l;
      [apply (step_connection
                (set_friendRequests [pending_record "" "bob"] init) bob1)|].
    apply rtc_once.
    apply (step_on _ bob1 env1
             (friend_request_response
                {| rs_sender_id := Some ""; rs_accepted := Some true;
                   rs_timestamp := None |}) _ []).
    reflexivity. }
  split; [exact Hrun|]. split; [reflexivity|]. split; [reflexivity|].
  apply (X17_request_without_identity_is_never_resolved _ _ 0%nat
           (pending_record "" "bob") Hrun eq_refl eq_refl).
Defined.
